(** * AnZaiBot: the orchestration core, embedded and verified

    A shallow embedding of the time- and event-driven core of AnZaiBot:

    - [PyStr]        the Python [str] operations the sources use;
    - [Scheduler]    [services/scheduler.py]: the deferred job store and the
                     heartbeat watchdog;
    - [Interpreter]  [core/anloop_interpreter.py] with the dispatch entry of
                     [services/tool_executor.py];
    - [QQBot]        [bot/qqbot.py]: the group message aggregator and the
                     reply throttler of [send_message].

    The first part of the file holds the embedding, the second part the
    lemmas and the theorems about it. *)

From Stdlib Require Import ZArith QArith Lqa Ascii String List Lia.
From stdpp Require Import base option list gmap strings pretty.

Local Open Scope string_scope.
Local Open Scope Z_scope.

(* ===================================================================== *)
(** * Part I: the embedding                                               *)
(* ===================================================================== *)

(** ** Python strings

    A Python [str] is modelled as a [string]: a sequence of characters with
    code points below 256.  The protocol syntax ([#], [=], [;], the
    [<Loops>] tags) lives in that range; the Chinese message constants are
    kept as opaque byte strings and only ever compared for equality. *)
Module PyStr.

(** [str.isspace] on one character, for code points below 256. *)
Definition is_space (c : ascii) : bool :=
  let n := N_of_ascii c in
  ((9 <=? n) && (n <=? 13) || (28 <=? n) && (n <=? 32) || (n =? 133) || (n =? 160))%N.

(** [c in chars] for a character [c]. *)
Fixpoint mem_char (c : ascii) (chars : string) : bool :=
  match chars with
  | EmptyString => false
  | String d r => Ascii.eqb c d || mem_char c r
  end.

Fixpoint lstrip_by (p : ascii -> bool) (s : string) : string :=
  match s with
  | EmptyString => EmptyString
  | String c r => if p c then lstrip_by p r else s
  end.

Fixpoint rstrip_by (p : ascii -> bool) (s : string) : string :=
  match s with
  | EmptyString => EmptyString
  | String c r =>
      match rstrip_by p r with
      | EmptyString => if p c then EmptyString else String c EmptyString
      | r' => String c r'
      end
  end.

(** [s.strip()] *)
Definition strip (s : string) : string :=
  rstrip_by is_space (lstrip_by is_space s).

(** [s.strip(chars)] *)
Definition strip_chars (chars s : string) : string :=
  rstrip_by (fun c => mem_char c chars) (lstrip_by (fun c => mem_char c chars) s).

(** [s.startswith(p)] *)
Fixpoint startswith (p s : string) : bool :=
  match p, s with
  | EmptyString, _ => true
  | String _ _, EmptyString => false
  | String a p', String b s' => Ascii.eqb a b && startswith p' s'
  end.

(** [s[:n]] and [s[n:]] for [n >= 0] *)
Fixpoint slice_to (n : nat) (s : string) : string :=
  match n, s with
  | O, _ => EmptyString
  | S _, EmptyString => EmptyString
  | S n', String c r => String c (slice_to n' r)
  end.

Fixpoint slice_from (n : nat) (s : string) : string :=
  match n, s with
  | O, _ => s
  | S _, EmptyString => EmptyString
  | S n', String _ r => slice_from n' r
  end.

(** [s.find(sub)]: the index of the first occurrence, [None] for Python's -1. *)
Fixpoint find (sub s : string) : option nat :=
  if startswith sub s then Some O
  else match s with
       | EmptyString => None
       | String _ r => S <$> find sub r
       end.

(** [sub in s] *)
Definition contains (sub s : string) : bool :=
  match find sub s with Some _ => true | None => false end.

(** [s.replace(old, new, 1)] *)
Definition replace_first (old new s : string) : string :=
  match find old s with
  | None => s
  | Some i => slice_to i s ++ new ++ slice_from (i + String.length old) s
  end.

(** [s.replace(old, new)] for one-character [old] and [new] *)
Fixpoint replace_char (old new : ascii) (s : string) : string :=
  match s with
  | EmptyString => EmptyString
  | String c r => String (if Ascii.eqb c old then new else c) (replace_char old new r)
  end.

(** [s.split(sep)] for a one-character separator: never the empty list. *)
Fixpoint split (sep : ascii) (s : string) : list string :=
  match s with
  | EmptyString => [EmptyString]
  | String c r =>
      if Ascii.eqb c sep then EmptyString :: split sep r
      else match split sep r with
           | [] => [String c EmptyString]
           | p :: ps => String c p :: ps
           end
  end.

(** [s.split(sep, 1)] for a one-character separator: one or two pieces. *)
Fixpoint split1 (sep : ascii) (s : string) : list string :=
  match s with
  | EmptyString => [EmptyString]
  | String c r =>
      if Ascii.eqb c sep then [EmptyString; r]
      else match split1 sep r with
           | [] => [String c EmptyString]
           | p :: ps => String c p :: ps
           end
  end.

(** [sep.join(parts)] *)
Fixpoint join (sep : string) (parts : list string) : string :=
  match parts with
  | [] => EmptyString
  | [p] => p
  | p :: ps => p ++ sep ++ join sep ps
  end.

(** [str.lower] on one character, for code points below 256. *)
Definition lower_char (c : ascii) : ascii :=
  let n := N_of_ascii c in
  if ((65 <=? n) && (n <=? 90) || (192 <=? n) && (n <=? 222) && negb (n =? 215))%N
  then ascii_of_N (n + 32) else c.

Fixpoint lower (s : string) : string :=
  match s with
  | EmptyString => EmptyString
  | String c r => String (lower_char c) (lower r)
  end.

(** Truthiness of a [str] and of an [Optional[str]]. *)
Definition truthy (s : string) : bool :=
  match s with EmptyString => false | _ => true end.

Definition truthy_opt (o : option string) : bool :=
  match o with Some s => truthy s | None => false end.

Definition newline : string := String (ascii_of_nat 10) EmptyString.

End PyStr.

(** ** Exceptions

    The outcome of Python code that may raise. *)
Inductive pyexn : Type :=
| IndexError
| ValueError
| KeyError.

Inductive pyres (A : Type) : Type :=
| Ok (a : A)
| Raise (e : pyexn).
Arguments Ok {A} a.
Arguments Raise {A} e.

#[global] Instance pyres_ret : MRet pyres := fun A a => Ok a.

#[global] Instance pyres_bind : MBind pyres := fun A B k m =>
  match m with
  | Ok a => k a
  | Raise e => Raise e
  end.

(** ** services/scheduler.py *)
Module Scheduler.

(** *** The deferred job store *)

(** A [datetime] of whole seconds, as its POSIX time in seconds: the times
    [_execute_bingme] passes come from [strptime] with a format that ends at
    the minute.  [run_time.timestamp()] is a float, which holds such a time
    exactly, and [int] gives it back. *)
Definition timestamp_int (run_time : Z) : Z := run_time.

(** The callables a job can hold. *)
Inductive callable : Type :=
| LambdaNone                       (* [lambda: None] *)
| SendMessageCallback (cb : nat)   (* the registered [send_message_callback] *)
| ReviewNotebookJob.               (* the nested [review_notebook_job] *)

(** A job of [self.apscheduler]: what [add_job] and [job.modify] set.  The
    job store is the APScheduler library's, a database store
    ([SQLAlchemyJobStore]); it is modelled by its interface, as the engine
    behaves once it is started, which [main] does before the first event is
    served: [add_job] puts the job into the store at once, [get_job] looks an
    id up, [job.modify] changes the attributes it names, and a
    [DateTrigger] job runs once when its run date is reached and is then
    removed. *)
Record job : Type := Job {
  job_func : callable;
  job_args : list (option string);
  job_name : string;
  job_run_date : Z
}.

Inductive pm_call : Type := PmStop | PmStart.

#[global] Instance pm_call_eq_dec : EqDecision pm_call.
Proof. solve_decision. Defined.

(** The fields of a [Scheduler] object, with the state of its two
    collaborators: the jobs of [self.apscheduler] and the calls made on
    [self.process_manager] (oldest first). *)
Record scheduler : Type := Sched {
  last_heartbeat_time : Q;
  running : bool;
  pending_user_tasks : gmap string string;
  send_message_callback : option nat;
  apscheduler : gmap string job;
  process_calls : list pm_call
}.

Definition heartbeat_timeout : Q := 100.

Definition set_last_heartbeat_time (t : Q) (s : scheduler) : scheduler :=
  Sched t (running s) (pending_user_tasks s) (send_message_callback s)
        (apscheduler s) (process_calls s).

Definition set_pending_user_tasks (p : gmap string string) (s : scheduler) : scheduler :=
  Sched (last_heartbeat_time s) (running s) p (send_message_callback s)
        (apscheduler s) (process_calls s).

Definition set_apscheduler (j : gmap string job) (s : scheduler) : scheduler :=
  Sched (last_heartbeat_time s) (running s) (pending_user_tasks s)
        (send_message_callback s) j (process_calls s).

Definition call_process_manager (c : pm_call) (s : scheduler) : scheduler :=
  Sched (last_heartbeat_time s) (running s) (pending_user_tasks s)
        (send_message_callback s) (apscheduler s) (process_calls s ++ [c]).

(** [register_send_message_callback] *)
Definition register_send_message_callback (cb : nat) (s : scheduler) : scheduler :=
  Sched (last_heartbeat_time s) (running s) (pending_user_tasks s) (Some cb)
        (apscheduler s) (process_calls s).

(** [f"pending_{user_id}_{int(run_time.timestamp())}"] *)
Definition pending_job_id (user_id : string) (run_time : Z) : string :=
  "pending_" ++ user_id ++ "_" ++ pretty (timestamp_int run_time).

(** Whether a callable has a textual reference ([module:name]) by which the
    store can pickle a job: a lambda and a function nested in another have
    none. *)
Definition has_reference (f : callable) : bool :=
  match f with
  | LambdaNone => false
  | SendMessageCallback _ => true
  | ReviewNotebookJob => false
  end.

(** [self.apscheduler.add_job(func, trigger=DateTrigger(run_date), id=...,
    name=..., replace_existing=True)] on the started engine.  The store
    pickles the job it is given; for a callable without a reference that
    raises [ValueError], and nothing is stored.  A job that is stored takes
    the place of one with the same id. *)
Definition add_job (job_id : string) (j : job) (jobs : gmap string job)
    : pyres (gmap string job) :=
  if has_reference (job_func j) then Ok (<[job_id := j]> jobs)
  else Raise ValueError.

(** [add_bing_me_task]: the placeholder job, then the awaiting pointer.  The
    returned confirmation text (a [strftime] rendering of [run_time]) is not
    part of the model. *)
Definition add_bing_me_task (user_id : string) (run_time : Z) (s : scheduler)
    : pyres scheduler :=
  let job_id := pending_job_id user_id run_time in
  jobs ← add_job job_id (Job LambdaNone [] ("Pending task for " ++ user_id) run_time)
                 (apscheduler s);
  let s1 := set_apscheduler jobs s in
  Ok (set_pending_user_tasks (<[user_id := job_id]> (pending_user_tasks s1)) s1).

Definition err_no_pending : string := "错误：请先使用 #BingMe 设定一个时间点。".
Definition err_job_gone : string := "错误：待处理的任务已过期或不存在。".
Definition err_no_callback : string := "错误：系统内部错误，无法发送消息（回调未注册）。".
Definition msg_configured : string := "定时消息已设定。".

(** [self._pending_user_tasks.pop(user_id, None)] *)
Definition pop_pending (user_id : string) (s : scheduler) : option string * scheduler :=
  (pending_user_tasks s !! user_id,
   set_pending_user_tasks (delete user_id (pending_user_tasks s)) s).

(** [job.modify(func=..., args=..., name=...)] *)
Definition modify (f : callable) (args : list (option string)) (name : string)
    (j : job) : job :=
  Job f args name (job_run_date j).

(** [update_pending_task_with_message] *)
Definition update_pending_task_with_message (user_id message : string)
    (s : scheduler) : string * scheduler :=
  let '(pending_job_id, s) := pop_pending user_id s in
  match pending_job_id with
  | None => (err_no_pending, s)
  | Some pending_job_id =>
      if negb (PyStr.truthy pending_job_id) then (err_no_pending, s)
      else
        match apscheduler s !! pending_job_id with
        | None => (err_job_gone, s)
        | Some j =>
            match send_message_callback s with
            | None => (err_no_callback, s)
            | Some cb =>
                let j' := modify (SendMessageCallback cb)
                            [Some user_id; None; Some "private"; Some message]
                            ("Send '" ++ PyStr.slice_to 10 message ++ "...' to " ++ user_id)
                            j in
                (msg_configured,
                 set_apscheduler (<[pending_job_id := j']> (apscheduler s)) s)
            end
        end
  end.

(** [update_pending_task_with_notebook] *)
Definition update_pending_task_with_notebook (user_id notebook_name : string)
    (s : scheduler) : string * scheduler :=
  let '(pending_job_id, s) := pop_pending user_id s in
  match pending_job_id with
  | None => (err_no_pending, s)
  | Some pending_job_id =>
      if negb (PyStr.truthy pending_job_id) then (err_no_pending, s)
      else
        match apscheduler s !! pending_job_id with
        | None => (err_job_gone, s)
        | Some j =>
            let j' := modify ReviewNotebookJob
                        [Some user_id; Some notebook_name]
                        ("Review notebook '" ++ notebook_name ++ "' for " ++ user_id)
                        j in
            ("定时回顾 Notebook '" ++ notebook_name ++ "' 的任务已设定。",
             set_apscheduler (<[pending_job_id := j']> (apscheduler s)) s)
        end
  end.

(** The two payloads [Configure] accepts, and [Configure] itself. *)
Inductive payload : Type :=
| BingMsg (message : string)
| BingNote (notebook_name : string).

Definition configure (user_id : string) (p : payload) (s : scheduler)
    : string * scheduler :=
  match p with
  | BingMsg message => update_pending_task_with_message user_id message s
  | BingNote notebook_name => update_pending_task_with_notebook user_id notebook_name s
  end.

(** What running a job does: the call it makes, [None] for [lambda: None],
    which has no effect. *)
Definition job_action (j : job) : option (callable * list (option string)) :=
  match job_func j with
  | LambdaNone => None
  | f => Some (f, job_args j)
  end.

(** The store at time [now]: the jobs whose run date is reached are run and
    removed. *)
Definition due (now : Z) (js : gmap string job) : gmap string job :=
  filter (fun kv => job_run_date kv.2 <= now) js.

Definition fire (now : Z) (s : scheduler) : gmap string job * scheduler :=
  (due now (apscheduler s),
   set_apscheduler (filter (fun kv => ~ job_run_date kv.2 <= now) (apscheduler s)) s).

(** *** The heartbeat watchdog *)

(** [update_heartbeat], called at time [now]. *)
Definition update_heartbeat (now : Q) (s : scheduler) : scheduler :=
  set_last_heartbeat_time now s.

(** The monitor task and what surrounds it: the scheduler object, the clock
    read by [time.time()], and the heartbeats still to come, by arrival
    time.  A sleep of [d] seconds moves the clock by [d], its nominal time
    (a sleep of the program is never shorter and can be a little longer),
    and the calls in between take none; the heartbeats that arrive
    meanwhile call [update_heartbeat] at their arrival time. *)
Record monitor : Type := Monitor {
  self : scheduler;
  clock : Q;
  heartbeats : list Q
}.

Fixpoint deliver (now : Q) (hbs : list Q) (s : scheduler) : scheduler * list Q :=
  match hbs with
  | [] => (s, [])
  | h :: r =>
      if Qle_bool h now then deliver now r (update_heartbeat h s)
      else let '(s', r') := deliver now r s in (s', h :: r')
  end.

Definition sleep (d : Q) (m : monitor) : monitor :=
  let now := (clock m + d)%Q in
  let '(s, hbs) := deliver now (heartbeats m) (self m) in
  Monitor s now hbs.

Definition starts_so_far (s : scheduler) : nat :=
  length (filter (fun c => c = PmStart) (process_calls s)).

Definition on_self (f : scheduler -> scheduler) (m : monitor) : monitor :=
  Monitor (f (self m)) (clock m) (heartbeats m).

(** One round of the [while self.running] loop of [_monitor_gocq_process].
    [start_ok k] is what the [k]-th call of [process_manager.start()]
    returns. *)
Definition monitor_round (start_ok : nat -> bool) (m : monitor) : monitor :=
  let now := clock m in
  let m :=
    if Qlt_le_dec heartbeat_timeout (now - last_heartbeat_time (self m)) then
      let m := on_self (call_process_manager PmStop) m in
      let m := sleep 3 m in
      let ok := start_ok (starts_so_far (self m)) in
      let m := on_self (call_process_manager PmStart) m in
      if ok then
        let m := on_self (update_heartbeat (clock m)) m in
        sleep 10 m
      else m
    else m in
  sleep 10 m.

(** [n] rounds of the loop. *)
Fixpoint monitor_loop (start_ok : nat -> bool) (n : nat) (m : monitor) : monitor :=
  match n with
  | O => m
  | S n' =>
      if running (self m) then monitor_loop start_ok n' (monitor_round start_ok m)
      else m
  end.

(** [_monitor_gocq_process], for [n] rounds. *)
Definition monitor_gocq_process (start_ok : nat -> bool) (n : nat) (m : monitor) : monitor :=
  monitor_loop start_ok n (sleep heartbeat_timeout m).

End Scheduler.

(** ** core/anloop_interpreter.py and the dispatch entry of
       services/tool_executor.py *)
Module Interpreter.

(** A parameter dictionary: parameter names to their text. *)
Abbreviation params := (gmap string string).

(** [seq[i]], which raises [IndexError] out of range. *)
Definition index {A : Type} (l : list A) (i : nat) : pyres A :=
  match l !! i with
  | Some a => Ok a
  | None => Raise IndexError
  end.

(** [del d[k]], which raises [KeyError] for a missing key. *)
Definition del (k : string) (d : params) : pyres params :=
  match d !! k with
  | Some _ => Ok (delete k d)
  | None => Raise KeyError
  end.

(** The body of [for i, pair in enumerate(param_pairs)]. *)
Definition parse_pair (i : nat) (pair_ : string) (ps : params) : pyres params :=
  if PyStr.mem_char "=" pair_ then
    match PyStr.split1 "=" pair_ with
    | [key; value] => Ok (<[PyStr.strip key := PyStr.strip value]> ps)
    | _ => Raise ValueError
    end
  else if Nat.eqb i 0 then Ok (<["content" := PyStr.strip pair_]> ps)
  else Ok ps.

Fixpoint parse_pairs (i : nat) (param_pairs : list string) (ps : params) : pyres params :=
  match param_pairs with
  | [] => Ok ps
  | pair_ :: rest => ps' ← parse_pair i pair_ ps; parse_pairs (S i) rest ps'
  end.

(** [not d.get(k)] for a dictionary of strings *)
Definition not_get (k : string) (d : params) : bool :=
  negb (PyStr.truthy_opt (d !! k)).

(** [AnLoopInterpreter._parse_tool_call] *)
Definition parse_tool_call (tool_str : string) : pyres (string * params) :=
  let parts := PyStr.split1 "=" (PyStr.strip tool_str) in
  p0 ← index parts 0;
  let tool_name := PyStr.slice_from 1 p0 in
  ps ← (if (1 <? length parts)%nat then
          param_str ← index parts 1;
          parse_pairs 0 (PyStr.split ";" param_str) ∅
        else Ok ∅);
  ps ← (if bool_decide (is_Some (ps !! "content")) && not_get "content" ps
        then del "content" ps else Ok ps);
  ps ← (if bool_decide (ps = ∅) && (1 <? length parts)%nat then
          p1 ← index parts 1; Ok (<["query" := p1]> ps)
        else Ok ps);
  Ok (tool_name, ps).

(** [ToolExecutionResult] *)
Record ToolExecutionResult : Type := ToolResult {
  success : bool;
  result : option string;
  error : option string
}.

(** [re.search(r'<Loops>(.*?)</Loops>', s, re.DOTALL)], its group 1: the
    leftmost opening tag that has a closing tag after it is the first opening
    tag, and the lazy group stops at the first closing tag after it. *)
Definition search_loops (s : string) : option string :=
  match PyStr.find "<Loops>" s with
  | None => None
  | Some i =>
      let rest := PyStr.slice_from (i + 7) s in
      match PyStr.find "</Loops>" rest with
      | None => None
      | Some j => Some (PyStr.slice_to j rest)
      end
  end.

(** The leading [#NotResp] check of [execute_anloop_sequence]: the flag and
    the content left to split. *)
Definition strip_not_resp (loop_content : string) : bool * string :=
  if PyStr.startswith "#NotResp" loop_content
  then (true, PyStr.strip_chars "; " (PyStr.replace_first "#NotResp" "" loop_content))
  else (false, loop_content).

(** [[tc.strip() for tc in loop_content.split(';') if tc.strip() and tc.startswith('#')]] *)
Definition tool_calls_str (loop_content : string) : list string :=
  map PyStr.strip
      (List.filter (fun tc => PyStr.truthy (PyStr.strip tc) && PyStr.startswith "#" tc)
                   (PyStr.split ";" loop_content)).

(** The parameters a call is dispatched with: the parsed ones, then the
    injected caller context. *)
Definition inject (user_id : string) (group_id : option string) (ps : params) : params :=
  let ps := <["user_id" := user_id]> ps in
  match group_id with
  | Some g => if PyStr.truthy g then <["group_id" := g]> ps else ps
  | None => ps
  end.

Section Dispatch.

(** The state the tools act on (the memo store, the job store, the chat
    gateway, ...). *)
Context {W : Type}.

(** A tool method [_execute_xxx(user_id, params)]: it returns its text, or
    raises an exception [e], given by [str(e)]. *)
Definition tool_method : Type := string -> params -> W -> (string + string) * W.

(** The methods [getattr] finds on the executor, by name, and
    [_execute_unknown]. *)
Variable methods : string -> option tool_method.
Variable execute_unknown : tool_method.

(** [ToolExecutor.dispatch_tool] *)
Definition dispatch_tool (tool_name : string) (tool_params : params) (w : W)
    : ToolExecutionResult * W :=
  match tool_params !! "user_id" with
  | Some user_id =>
      if PyStr.truthy user_id then
        let method_name :=
          "_execute_" ++ PyStr.replace_char "-" "_" (PyStr.lower tool_name) in
        let method := default execute_unknown (methods method_name) in
        match method user_id tool_params w with
        | (inl r, w') => (ToolResult true (Some r) None, w')
        | (inr e, w') =>
            (ToolResult false None
               (Some ("执行工具'" ++ tool_name ++ "'时内部错误: " ++ e)), w')
        end
      else (ToolResult false None (Some "所有工具调用都必须包含 user_id"), w)
  | None => (ToolResult false None (Some "所有工具调用都必须包含 user_id"), w)
  end.

(** The [for tool_str in tool_calls_str] loop: [results] is the list the
    loop appends to. *)
Fixpoint run_calls (user_id : string) (group_id : option string)
    (calls : list string) (results : list ToolExecutionResult) (w : W)
    : pyres (list ToolExecutionResult) * W :=
  match calls with
  | [] => (Ok results, w)
  | tool_str :: rest =>
      match parse_tool_call tool_str with
      | Raise e => (Raise e, w)
      | Ok (tool_name, ps) =>
          let '(r, w') := dispatch_tool tool_name (inject user_id group_id ps) w in
          run_calls user_id group_id rest (results ++ [r]) w'
      end
  end.

(** [AnLoopInterpreter.execute_anloop_sequence] *)
Definition execute_anloop_sequence (anloop_string user_id : string)
    (group_id : option string) (w : W)
    : pyres (list ToolExecutionResult * bool) * W :=
  match search_loops anloop_string with
  | None => (Ok ([], false), w)
  | Some g1 =>
      let '(not_resp, loop_content) := strip_not_resp (PyStr.strip g1) in
      match run_calls user_id group_id (tool_calls_str loop_content) [] w with
      | (Ok results, w') => (Ok (results, not_resp), w')
      | (Raise e, w') => (Raise e, w')
      end
  end.

End Dispatch.

(** The call segments of a sequence and the calls parsed from them: what
    [execute_anloop_sequence] loops over, before the caller context is
    injected. *)
Definition loop_content_of (anloop_string : string) : option (bool * string) :=
  strip_not_resp ∘ PyStr.strip <$> search_loops anloop_string.

Definition call_segments (anloop_string : string) : list string :=
  match loop_content_of anloop_string with
  | None => []
  | Some (_, loop_content) => tool_calls_str loop_content
  end.

Definition parsed_calls (anloop_string : string) : list (pyres (string * params)) :=
  map parse_tool_call (call_segments anloop_string).

End Interpreter.

(** ** bot/qqbot.py *)
Module QQBot.

Definition GROUP_MESSAGE_BUFFER_THRESHOLD_FIXED : Z := 5.
Definition GROUP_MESSAGE_BUFFER_THRESHOLD_RANDOM : Z := 5.
Definition MAX_MESSAGE_LENGTH_PRIVATE : nat := 3000.
Definition GROUP_REPLY_COOLDOWN : Q := 20.

(** *** The group message aggregator *)

(** A message event, by the fields the bot reads. *)
Record msg_event : Type := MsgEvent {
  message_id : Z;
  ev_user_id : string;
  ev_nickname : string;
  raw_message : string
}.

(** An [asyncio.Task] running [_start_group_message_timer]: asleep, asleep
    with a cancellation requested, or done. *)
Inductive task_state : Type := Sleeping | CancelRequested | Done.

(** The aggregator's fields of a [QQBot] object, and what surrounds them: the
    timer tasks created so far (a task is named by its index), the number of
    values drawn from [random] so far, and the batches handed to
    [_process_buffered_group_messages]'s consumer (oldest first). *)
Record aggregator : Type := Aggregator {
  group_message_buffers : gmap string (list msg_event);
  group_message_timers : gmap string nat;
  tasks : list task_state;
  random_pos : nat;
  handed_off : list (string * list msg_event)
}.

Definition set_buffers (b : gmap string (list msg_event)) (a : aggregator) : aggregator :=
  Aggregator b (group_message_timers a) (tasks a) (random_pos a) (handed_off a).

Definition set_timers (t : gmap string nat) (a : aggregator) : aggregator :=
  Aggregator (group_message_buffers a) t (tasks a) (random_pos a) (handed_off a).

Definition set_tasks (t : list task_state) (a : aggregator) : aggregator :=
  Aggregator (group_message_buffers a) (group_message_timers a) t (random_pos a)
             (handed_off a).

Section Aggregate.

(** The values the random generator yields, in the order they are drawn. *)
Variable random_source : nat -> Z.

(** [random.randint(lo, hi)]: the next value of the generator, brought
    into [lo..hi]. *)
Definition randint (lo hi : Z) (a : aggregator) : Z * aggregator :=
  (lo + random_source (random_pos a) mod (hi - lo + 1),
   Aggregator (group_message_buffers a) (group_message_timers a) (tasks a)
              (S (random_pos a)) (handed_off a)).

(** [_process_buffered_group_messages], up to the hand-off of the batch:
    the buffer is popped and handed over, in arrival order.  What the
    consumer does with it (the agent's decision and the reply, which goes
    through [send_message]) is the throttler's part. *)
Definition process_buffered_group_messages (group_id : string) (a : aggregator)
    : aggregator :=
  match group_message_buffers a !! group_id with
  | None => a
  | Some [] => a
  | Some buffered_events =>
      Aggregator (delete group_id (group_message_buffers a))
                 (group_message_timers a) (tasks a) (random_pos a)
                 (handed_off a ++ [(group_id, buffered_events)])
  end.

(** [task.done()] and [task.cancel()] *)
Definition done (tid : nat) (a : aggregator) : bool :=
  match tasks a !! tid with
  | Some Done => true
  | _ => false
  end.

Definition cancel (tid : nat) (a : aggregator) : aggregator :=
  match tasks a !! tid with
  | Some Sleeping => set_tasks (<[tid := CancelRequested]> (tasks a)) a
  | _ => a
  end.

(** [asyncio.create_task(self._start_group_message_timer(group_id))].  The
    new task is taken at its [sleep]: the event loop runs it up to there once
    the handler that created it has returned.  (A task cancelled before its
    first step never runs its body; the model has no such task.) *)
Definition create_task (a : aggregator) : nat * aggregator :=
  (length (tasks a), set_tasks (tasks a ++ [Sleeping]) a).

(** [if group_id in self.group_message_timers and not ....done(): ....cancel()] *)
Definition cancel_timer (group_id : string) (a : aggregator) : aggregator :=
  match group_message_timers a !! group_id with
  | Some tid => if negb (done tid a) then cancel tid a else a
  | None => a
  end.

(** Step 3 of [_handle_message_event], for a group message that does not
    mention the bot. *)
Definition buffer_group_message (group_id : string) (msg : msg_event) (a : aggregator)
    : aggregator :=
  let buf := (default [] (group_message_buffers a !! group_id) ++ [msg])%list in
  let a := set_buffers (<[group_id := buf]> (group_message_buffers a)) a in
  let a := cancel_timer group_id a in
  let '(r, a) := randint 0 GROUP_MESSAGE_BUFFER_THRESHOLD_RANDOM a in
  let threshold := GROUP_MESSAGE_BUFFER_THRESHOLD_FIXED + r in
  if threshold <=? Z.of_nat (length buf) then
    process_buffered_group_messages group_id a
  else
    let '(tid, a) := create_task a in
    set_timers (<[group_id := tid]> (group_message_timers a)) a.

(** The [finally] of [_start_group_message_timer], and the end of the task. *)
Definition timer_finally (tid : nat) (group_id : string) (a : aggregator) : aggregator :=
  let a := set_timers (delete group_id (group_message_timers a)) a in
  set_tasks (<[tid := Done]> (tasks a)) a.

(** [_start_group_message_timer] from the moment task [tid] wakes up: after
    its sleep, or with [CancelledError] when a cancellation was requested. *)
Definition start_group_message_timer (tid : nat) (group_id : string) (a : aggregator)
    : aggregator :=
  match tasks a !! tid with
  | Some Sleeping =>
      let a :=
        match group_message_buffers a !! group_id with
        | None => a
        | Some [] => a
        | Some buf =>
            let '(r, a) := randint 2 GROUP_MESSAGE_BUFFER_THRESHOLD_RANDOM a in
            let threshold := GROUP_MESSAGE_BUFFER_THRESHOLD_FIXED + r in
            if threshold <=? Z.of_nat (length buf) then
              process_buffered_group_messages group_id a
            else a
        end in
      timer_finally tid group_id a
  | Some CancelRequested => timer_finally tid group_id a
  | _ => a
  end.

End Aggregate.

(** *** The reply throttler *)

(** What [http_client.post] comes to: the gateway answers with status [ok],
    answers with another status, or the call raises. *)
Inductive post_outcome : Type := PostOk | PostNotOk | PostRaised.

(** A request to the gateway: endpoint, numeric target, message text. *)
Record post : Type := Post {
  endpoint : string;
  target : Z;
  message : string
}.

(** An assistant message written to the history. *)
Record history_entry : Type := HistoryEntry {
  h_user_id : string;
  h_message_type : string;
  h_content : string;
  h_group_id : option string
}.

(** The throttler's fields of a [QQBot] object, with the requests made to
    the gateway and the history entries written (oldest first). *)
Record throttler : Type := Throttler {
  last_group_reply_time : gmap string Q;
  group_reply_buffers : gmap string (list string);
  posts : list post;
  history : list history_entry
}.

(** [int(s)] for a string: blanks around, a sign, decimal digits, single
    underscores between digits. *)
Definition digit (c : ascii) : option Z :=
  let n := N_of_ascii c in
  if ((48 <=? n) && (n <=? 57))%N then Some (Z.of_N n - 48) else None.

Fixpoint int_digits (acc : Z) (after_digit : bool) (s : string) : option Z :=
  match s with
  | EmptyString => if after_digit then Some acc else None
  | String c r =>
      match digit c with
      | Some d => int_digits (10 * acc + d) true r
      | None => if Ascii.eqb c "_" && after_digit then int_digits acc false r else None
      end
  end.

Definition int (s : string) : pyres Z :=
  let t := PyStr.strip s in
  let '(neg, body) :=
    match t with
    | String "-" r => (true, r)
    | String "+" r => (false, r)
    | _ => (false, t)
    end in
  match int_digits 0 false body with
  | Some n => Ok (if neg then - n else n)
  | None => Raise ValueError
  end.

(** [[content[i:i+n] for i in range(0, len(content), n)]] *)
Fixpoint chunks_from (fuel n : nat) (content : string) : list string :=
  match fuel, content with
  | O, _ => []
  | _, EmptyString => []
  | S fuel', _ => PyStr.slice_to n content :: chunks_from fuel' n (PyStr.slice_from n content)
  end.

Definition chunks (n : nat) (content : string) : list string :=
  chunks_from (String.length content) n content.

Definition summary_prompt (combined_reply_content : string) : string :=
  PyStr.newline ++
  "你是一个AI助手，需要总结以下多条回复内容，并生成一个简洁、连贯的最终回复。" ++ PyStr.newline ++
  "这些回复是AnZaiBot在短时间内对群聊消息的响应。" ++ PyStr.newline ++
  PyStr.newline ++
  "请将以下内容总结成一条回复：" ++ PyStr.newline ++
  combined_reply_content ++ PyStr.newline ++
  PyStr.newline ++
  "请直接输出总结后的回复，不要包含任何额外的解释。" ++ PyStr.newline.

Definition summary_system_instruction : string := "你是一个AI助手，负责总结多条回复。".
Definition pro_model_name : string := "gemini-2.5-flash-preview-05-20".
Definition summary_failed : string := "抱歉，我尝试总结群聊回复时遇到了一些问题。".

Section Send.

(** [ai_inference_layer._call_gemini_api(model, prompt, system_instruction)]:
    the text it returns, or [None] when it raises (every key failed). *)
Variable call_gemini_api : string -> string -> string -> option string.

(** The gateway's answer to a request. *)
Variable http_post : post -> post_outcome.

(** The [for i, msg_part in enumerate(messages_to_send)] loop. *)
Fixpoint send_parts (i : nat) (ep : string) (tgt : Z) (user_id : string)
    (group_id : option string) (message_type content : string)
    (messages_to_send : list string) (t : throttler) : throttler :=
  match messages_to_send with
  | [] => t
  | msg_part :: rest =>
      let p := Post ep tgt msg_part in
      let t := Throttler (last_group_reply_time t) (group_reply_buffers t)
                         (posts t ++ [p]) (history t) in
      match http_post p with
      | PostRaised => t
      | PostNotOk =>
          send_parts (S i) ep tgt user_id group_id message_type content rest t
      | PostOk =>
          let t :=
            if Nat.eqb i 0 then
              Throttler (last_group_reply_time t) (group_reply_buffers t) (posts t)
                        (history t ++ [HistoryEntry user_id message_type content group_id])
            else t in
          send_parts (S i) ep tgt user_id group_id message_type content rest t
      end
  end.

(** The cooldown gate of [send_message], for a group: [None] when the reply
    is buffered and nothing is to be sent, else the messages to send. *)
Definition group_gate (group_id content : string) (current_time : Q)
    (messages_to_send : list string) (t : throttler)
    : option (list string) * throttler :=
  let last_reply_time := default 0%Q (last_group_reply_time t !! group_id) in
  if Qlt_le_dec (current_time - last_reply_time) GROUP_REPLY_COOLDOWN then
    let buf := (default [] (group_reply_buffers t !! group_id) ++ [content])%list in
    (None,
     Throttler (last_group_reply_time t) (<[group_id := buf]> (group_reply_buffers t))
               (posts t) (history t))
  else
    let '(messages_to_send, t) :=
      match group_reply_buffers t !! group_id with
      | None => (messages_to_send, t)
      | Some [] => (messages_to_send, t)
      | Some buffered =>
          let all_buffered_replies := (buffered ++ [content])%list in
          let combined_reply_content := PyStr.join PyStr.newline all_buffered_replies in
          let t := Throttler (last_group_reply_time t)
                             (delete group_id (group_reply_buffers t))
                             (posts t) (history t) in
          match call_gemini_api pro_model_name (summary_prompt combined_reply_content)
                                summary_system_instruction with
          | Some final_reply_content => ([final_reply_content], t)
          | None => ([summary_failed], t)
          end
      end in
    (Some messages_to_send,
     Throttler (<[group_id := current_time]> (last_group_reply_time t))
               (group_reply_buffers t) (posts t) (history t)).

(** [QQBot.send_message], called at time [current_time]. *)
Definition send_message (user_id : string) (group_id : option string)
    (message_type content : string) (at_user_id : option string)
    (current_time : Q) (t : throttler) : pyres throttler :=
  if String.eqb message_type "private" then
    let messages_to_send :=
      if (MAX_MESSAGE_LENGTH_PRIVATE <? String.length content)%nat
      then chunks MAX_MESSAGE_LENGTH_PRIVATE content
      else [content] in
    tgt ← int user_id;
    Ok (send_parts 0 "/send_private_msg" tgt user_id group_id message_type content
                   messages_to_send t)
  else
    match group_id with
    | Some g =>
        if String.eqb message_type "group" && PyStr.truthy g then
          let messages_to_send :=
            match at_user_id with
            | Some u =>
                if PyStr.truthy u then ["[CQ:at,qq=" ++ u ++ "] " ++ content]
                else [content]
            | None => [content]
            end in
          tgt ← int g;
          match group_gate g content current_time messages_to_send t with
          | (None, t) => Ok t
          | (Some messages_to_send, t) =>
              Ok (send_parts 0 "/send_group_msg" tgt user_id group_id message_type
                             content messages_to_send t)
          end
        else Ok t
    | None => Ok t
    end.

End Send.

End QQBot.

(** ** bot/qqbot.py: the record of processed messages *)
Module Events.

(** [d.append(x)] on a [deque] with [maxlen]: at the bound, the oldest
    element is discarded. *)
Definition deque_append {A : Type} (maxlen : nat) (x : A) (d : list A) : list A :=
  if (maxlen <=? length d)%nat then (drop 1 d ++ [x])%list else (d ++ [x])%list.

Definition PROCESSED_IDS_MAXLEN : nat := 200.

(** The first lines of [_handle_message_event]: whether the event goes on to
    be handled, and [self.processed_message_ids] afterwards.  The id is what
    [msg_event.get('message_id')] gives, [None] when the event has none. *)
Definition note_message (message_id : option Z) (processed_message_ids : list (option Z))
    : bool * list (option Z) :=
  if bool_decide (message_id ∈ processed_message_ids)
  then (false, processed_message_ids)
  else (true, deque_append PROCESSED_IDS_MAXLEN message_id processed_message_ids).

End Events.

(** ** services/tool_executor.py: the scheduling tools *)
Module Tools.
Import Scheduler Interpreter.

Section Methods.

(** [datetime.strptime(time_str, "%Y/%m/%d-%H:%M")]: the time point it
    reads, or [None] for the [ValueError] it raises; and
    [run_time.strftime('%Y-%m-%d %H:%M:%S')]. *)
Variable strptime : string -> option Z.
Variable strftime : Z -> string.

Definition err_bingme_no_time : string := "错误：#BingMe 需要提供时间点。".
Definition err_bingmsg_no_content : string := "错误：#BingMsg 需要提供消息内容。".
Definition err_bingnote_no_name : string := "错误：#BingNote 需要提供 Notebook 名称。".

Definition err_time_format (time_str : string) : string :=
  "错误：无法解析时间格式 '" ++ time_str ++ "'。请使用 '年/月/日-时:分' 格式。".

(** What [add_bing_me_task] returns. *)
Definition msg_time_set (run_time : Z) : string :=
  "时间点 '" ++ strftime run_time
  ++ "' 已设定。请继续使用 #BingMsg 或 #BingNote 指定任务内容。".

(** [_execute_bingme].  Its [except ValueError] stands around both
    [strptime] and [add_bing_me_task]: the [ValueError] of [add_job], the only
    exception [add_bing_me_task] raises, is answered like a time that cannot
    be read. *)
Definition execute_bingme : @tool_method scheduler := fun user_id ps s =>
  match ps !! "content" with
  | Some time_str =>
      if negb (PyStr.truthy time_str) then (inl err_bingme_no_time, s)
      else match strptime time_str with
           | Some run_time =>
               match add_bing_me_task user_id run_time s with
               | Ok s' => (inl (msg_time_set run_time), s')
               | Raise _ => (inl (err_time_format time_str), s)
               end
           | None => (inl (err_time_format time_str), s)
           end
  | None => (inl err_bingme_no_time, s)
  end.

(** [_execute_bingmsg] *)
Definition execute_bingmsg : @tool_method scheduler := fun user_id ps s =>
  match ps !! "content" with
  | Some msg =>
      if negb (PyStr.truthy msg) then (inl err_bingmsg_no_content, s)
      else let '(r, s') := update_pending_task_with_message user_id msg s in (inl r, s')
  | None => (inl err_bingmsg_no_content, s)
  end.

(** [_execute_bingnote] *)
Definition execute_bingnote : @tool_method scheduler := fun user_id ps s =>
  match ps !! "content" with
  | Some notebook_name =>
      if negb (PyStr.truthy notebook_name) then (inl err_bingnote_no_name, s)
      else let '(r, s') := update_pending_task_with_notebook user_id notebook_name s in
           (inl r, s')
  | None => (inl err_bingnote_no_name, s)
  end.

(** [_execute_unknown]: nothing puts [_tool_name_from_dispatch] among the
    parameters but the call text itself. *)
Definition execute_unknown : @tool_method scheduler := fun user_id ps s =>
  let tool_name := default "unknown" (ps !! "_tool_name_from_dispatch") in
  (inl ("错误：未知的工具 '" ++ tool_name ++ "'。"), s).

(** What [getattr(self, method_name, ...)] finds: the three scheduling
    tools, and [others] for every other attribute of the executor. *)
Variable others : string -> option (@tool_method scheduler).

Definition methods (method_name : string) : option (@tool_method scheduler) :=
  if String.eqb method_name "_execute_bingme" then Some execute_bingme
  else if String.eqb method_name "_execute_bingmsg" then Some execute_bingmsg
  else if String.eqb method_name "_execute_bingnote" then Some execute_bingnote
  else others method_name.

Definition dispatch : string -> params -> scheduler -> ToolExecutionResult * scheduler :=
  dispatch_tool methods execute_unknown.

End Methods.

End Tools.

(** ** core/ai_inference_layer.py: calling the model *)
Module Inference.

Section Gemini.

(** [len(self.valid_keys)], and what [generate_content] gives at the [i]-th
    attempt of a call, made with the key at index [k]: [response.text], or
    [None] when that is [None] or the request raises. *)
Variable n : nat.
Variable generate_content : nat -> nat -> option string.

(** [_rotate_api_key], on [self.current_key_index] *)
Definition rotate_api_key (current_key_index : nat) : nat :=
  (current_key_index + 1) mod n.

(** The [for i in range(len(self.valid_keys) * 2)] loop of
    [_call_gemini_api], with [todo] attempts left: the text returned, or
    [None] for the exception raised after the last attempt, and
    [self.current_key_index] afterwards. *)
Fixpoint attempts (todo i current_key_index : nat) : option string * nat :=
  match todo with
  | O => (None, current_key_index)
  | S todo' =>
      match generate_content i current_key_index with
      | Some text => (Some (PyStr.strip text), current_key_index)
      | None => attempts todo' (S i) (rotate_api_key current_key_index)
      end
  end.

(** [_call_gemini_api] *)
Definition call_gemini_api (current_key_index : nat) : option string * nat :=
  attempts (n * 2) 0 current_key_index.

End Gemini.

End Inference.

(** ** core/ai_inference_layer.py and core/anzai_bot.py: from the model's
       answer to the reply *)
Module Decision.
Import Interpreter.

(** [s.replace(old, new)] for a non-empty [old]: every occurrence, left to
    right, none overlapping.  Each step takes at least one character. *)
Fixpoint replace_fuel (fuel : nat) (old new s : string) : string :=
  match fuel with
  | O => s
  | S fuel' =>
      if PyStr.startswith old s
      then new ++ replace_fuel fuel' old new (PyStr.slice_from (String.length old) s)
      else match s with
           | EmptyString => EmptyString
           | String c r => String c (replace_fuel fuel' old new r)
           end
  end.

Definition replace (old new s : string) : string :=
  replace_fuel (S (String.length s)) old new s.

(** [DecisionResult]; the payload is a text, or the [None] a failed
    dispatch has for its result. *)
Record DecisionResult : Type := Decision {
  response_type : string;
  payload : option string;
  should_respond : bool
}.

(** [[res.result for res in tool_results if res.success and res.result]] *)
Definition successful_results (tool_results : list ToolExecutionResult) : list string :=
  omap (fun res => if success res && PyStr.truthy_opt (result res) then result res else None)
       tool_results.

Definition msg_background_started : string := "后台任务已启动。".

(** The table of [_execute_errorlib] and the method itself. *)
Definition general_error : string := "发生了一个未知错误，请稍后再试。".

Definition error_messages : gmap string string :=
  list_to_map
    [("unknown_command", "抱歉，我不理解您的指令。请尝试更明确的表达。");
     ("tool_execution_failed", "工具执行失败，请稍后再试或联系管理员。");
     ("no_search_results", "未能找到相关搜索结果。");
     ("memo_not_found", "未找到指定的备忘录。");
     ("notebook_not_found", "未找到指定的Notebook。");
     ("insufficient_credit", "Notebook 信用额度不足。");
     ("general_error", general_error)].

Definition execute_errorlib {W : Type} : @tool_method W := fun user_id ps w =>
  let reason := default "general_error" (ps !! "reason") in
  (inl (default general_error (error_messages !! reason)), w).

Section Decide.

Context {W : Type}.
Variable methods : string -> option (@tool_method W).
Variable execute_unknown : @tool_method W.

(** [dispatch_tool("errorlib", {"reason": reason, "user_id": user_id})] and
    the [.result] read from it. *)
Definition errorlib_reply (reason user_id : string) (w : W) : option string * W :=
  let '(res, w') :=
    dispatch_tool methods execute_unknown "errorlib"
                  {[ "reason" := reason; "user_id" := user_id ]} w in
  (result res, w').

(** [make_decision] from the call of the Pro model on: the path of a
    private message, of a group message that mentions the bot, and the one
    the Flash path falls back to.  [response] is what [_call_gemini_api]
    returned, [None] when it raised. *)
Definition make_decision_pro (response : option string) (user_id session_id : string)
    (w : W) : DecisionResult * W :=
  let on_error (w : W) :=
    let '(r, w') := errorlib_reply "general_error" user_id w in
    (Decision "direct_reply" r true, w') in
  match response with
  | None => on_error w
  | Some response_text =>
      match search_loops response_text with
      | None => (Decision "direct_reply" (Some response_text) true, w)
      | Some g1 =>
          let anloop_part := "<Loops>" ++ g1 ++ "</Loops>" in
          let direct_reply_part := PyStr.strip (replace anloop_part "" response_text) in
          match execute_anloop_sequence methods execute_unknown anloop_part user_id
                  (Some session_id) w with
          | (Raise _, w') => on_error w'
          | (Ok (tool_results, not_resp_flag), w') =>
              let successful := successful_results tool_results in
              if negb not_resp_flag then
                if PyStr.truthy direct_reply_part
                then (Decision "direct_reply" (Some direct_reply_part) true, w')
                else
                  match successful with
                  | _ :: _ =>
                      (Decision "direct_reply" (Some (PyStr.join PyStr.newline successful))
                                true, w')
                  | [] =>
                      let '(r, w'') := errorlib_reply "tool_execution_failed" user_id w' in
                      (Decision "direct_reply" r true, w'')
                  end
              else
                let payload :=
                  match successful with
                  | _ :: _ => PyStr.join PyStr.newline successful
                  | [] => msg_background_started
                  end in
                (Decision "anloop_sequence" (Some payload) false, w')
          end
      end
  end.

End Decide.

(** What [AnZaiBot.handle_message] returns for a decision. *)
Definition handle_message (decision_result : DecisionResult) : option string :=
  if should_respond decision_result then payload decision_result else None.

End Decision.

(* ===================================================================== *)
(** * Part II: properties                                                 *)
(* ===================================================================== *)

(** ** Facts about Python strings *)
Module PyStrFacts.
Import PyStr.

#[local] Arguments String.append !_ _ / : simpl nomatch.

Lemma mem_char_app c s1 s2 :
  mem_char c (s1 ++ s2) = mem_char c s1 || mem_char c s2.
Proof.
  induction s1 as [|d r IH]; simpl; [done|].
  rewrite IH. by rewrite orb_assoc.
Qed.

(** Two texts that end in a sigil [c] and a tail free of [c] are equal only
    if their parts are. *)
Lemma sigil_tail_inj c u u' a a' :
  u ++ String c a = u' ++ String c a' ->
  mem_char c a = false -> mem_char c a' = false ->
  u = u' /\ a = a'.
Proof.
  revert u'. induction u as [|x u IH]; intros [|x' u'] Heq Ha Ha'; simpl in Heq.
  - by inversion Heq.
  - inversion Heq as [[Hx Htail]]. subst.
    rewrite mem_char_app in Ha. simpl in Ha.
    rewrite Ascii.eqb_refl in Ha. simpl in Ha.
    by rewrite orb_true_r in Ha.
  - inversion Heq as [[Hx Htail]]. subst.
    rewrite mem_char_app in Ha'. simpl in Ha'.
    rewrite Ascii.eqb_refl in Ha'. simpl in Ha'.
    by rewrite orb_true_r in Ha'.
  - inversion Heq as [[Hx Htail]]. subst.
    destruct (IH _ Htail Ha Ha') as [-> ->]. done.
Qed.

Lemma pretty_N_char_no_underscore x : Ascii.eqb "_" (pretty_N_char x) = false.
Proof. unfold pretty_N_char. by repeat case_match. Qed.

Lemma pretty_N_go_no_underscore x s :
  mem_char "_" s = false -> mem_char "_" (pretty_N_go x s) = false.
Proof.
  revert s. induction (N.lt_wf_0 x) as [x _ IH]; intros s Hs.
  assert (x = 0 \/ 0 < x)%N as [->|Hpos] by lia.
  - by rewrite pretty_N_go_0.
  - rewrite pretty_N_go_step by done. apply IH.
    + by apply N.div_lt.
    + cbn [mem_char]. by rewrite pretty_N_char_no_underscore, Hs.
Qed.

Lemma pretty_N_no_underscore (x : N) : mem_char "_" (pretty x) = false.
Proof.
  unfold pretty, pretty_N. case_decide; [done|].
  by apply pretty_N_go_no_underscore.
Qed.

Lemma pretty_Z_no_underscore (z : Z) : mem_char "_" (pretty z) = false.
Proof.
  destruct z as [|p|p]; unfold pretty, pretty_Z; simpl; [done|..].
  - apply pretty_N_no_underscore.
  - apply (pretty_N_no_underscore (Npos p)).
Qed.

(** [t] occurs in [s]. *)
Definition occurs (t s : string) : Prop := exists a b, s = a ++ t ++ b.

Lemma append_assoc (a b c : string) : (a ++ b) ++ c = a ++ b ++ c.
Proof. induction a as [|x a IH]; simpl; [done|by rewrite IH]. Qed.

Lemma append_nil_r (a : string) : a ++ "" = a.
Proof. induction a as [|x a IH]; simpl; [done|by rewrite IH]. Qed.

Lemma occurs_refl s : occurs s s.
Proof. exists "", "". simpl. by rewrite append_nil_r. Qed.

Lemma occurs_trans t u s : occurs t u -> occurs u s -> occurs t s.
Proof.
  intros (a & b & ->) (a' & b' & ->). exists (a' ++ a), (b ++ b').
  by rewrite !append_assoc.
Qed.

Lemma occurs_prefix t b : occurs t (t ++ b).
Proof. by exists "", b. Qed.

Lemma occurs_suffix a t : occurs t (a ++ t).
Proof. exists a, "". by rewrite append_nil_r. Qed.

Lemma startswith_spec t s : startswith t s = true <-> exists b, s = t ++ b.
Proof.
  revert s. induction t as [|x t IH]; intros s; simpl.
  - split; [eauto|done].
  - destruct s as [|y s]; [split; [done|by intros [b Hb]]|].
    rewrite andb_true_iff, IH. split.
    + intros [Hxy [b ->]]. apply Ascii.eqb_eq in Hxy as ->. eauto.
    + intros [b Hb]. inversion Hb; subst. split; [apply Ascii.eqb_refl|eauto].
Qed.

Lemma find_startswith t s : startswith t s = true -> find t s = Some O.
Proof. intros Hst. destruct s; simpl; by rewrite Hst. Qed.

Lemma find_None t s : find t s = None -> ~ occurs t s.
Proof.
  intros Hfind (a & b & ->). revert Hfind. induction a as [|x a IH].
  - assert (Hst : startswith t (t ++ b) = true) by (apply startswith_spec; eauto).
    simpl. by rewrite (find_startswith _ _ Hst).
  - simpl. destruct (startswith t (String x (a ++ t ++ b))); [done|].
    destruct (find t (a ++ t ++ b)); [done|]. intros _. by apply IH.
Qed.

Lemma slice_from_append t b : slice_from (String.length t) (t ++ b) = b.
Proof. induction t as [|x t IH]; simpl; [by destruct b|done]. Qed.

(** With the marker in front, replacing its first occurrence by nothing
    drops it. *)
Lemma replace_first_prefix t s :
  startswith t s = true -> replace_first t "" s = slice_from (String.length t) s.
Proof. intros Hst. unfold replace_first. by rewrite (find_startswith _ _ Hst). Qed.

Lemma slice_from_occurs n s : occurs (slice_from n s) s.
Proof.
  revert s. induction n as [|n IH]; intros [|x s]; simpl; try apply occurs_refl.
  destruct (IH s) as (a & b & Hs). exists (String x a), b. simpl. by rewrite <- Hs.
Qed.

Lemma lstrip_by_occurs p s : occurs (lstrip_by p s) s.
Proof.
  induction s as [|x s IH]; simpl; [apply occurs_refl|].
  destruct (p x); [|apply occurs_refl].
  destruct IH as (a & b & Hs). exists (String x a), b. simpl. by rewrite <- Hs.
Qed.

Lemma rstrip_by_prefix p s : exists b, s = rstrip_by p s ++ b.
Proof.
  induction s as [|x s [b IH]]; simpl; [by exists ""|].
  destruct (rstrip_by p s) as [|y r] eqn:Hr.
  - destruct (p x); [by exists (String x s)|]. exists s. done.
  - exists b. simpl in *. by rewrite <- IH.
Qed.

Lemma rstrip_by_occurs p s : occurs (rstrip_by p s) s.
Proof. destruct (rstrip_by_prefix p s) as [b Hb]. exists "", b. done. Qed.

Lemma strip_occurs s : occurs (strip s) s.
Proof.
  unfold strip. eapply occurs_trans; [apply rstrip_by_occurs|apply lstrip_by_occurs].
Qed.

Lemma strip_chars_occurs chars s : occurs (strip_chars chars s) s.
Proof.
  unfold strip_chars.
  eapply occurs_trans; [apply rstrip_by_occurs|apply lstrip_by_occurs].
Qed.

Lemma split_nonempty c s : split c s ≠ [].
Proof. destruct s as [|x s]; simpl; [done|]. by repeat case_match. Qed.

(** Every piece of a split occurs in the text. *)
Lemma split_occurs c s piece : In piece (split c s) -> occurs piece s.
Proof.
  revert piece. induction s as [|x s IH]; intros piece; simpl.
  - intros [<-|[]]. apply occurs_refl.
  - destruct (Ascii.eqb x c).
    + intros [<-|Hin]; [by exists "", (String x s)|].
      destruct (IH _ Hin) as (a & b & Hs). exists (String x a), b. simpl. by rewrite <- Hs.
    + destruct (split c s) as [|q qs] eqn:Hq; [by destruct (split_nonempty c s)|].
      intros [<-|Hin].
      * destruct (IH q (or_introl eq_refl)) as (a & b & Hs).
        destruct a as [|y a]; simpl in Hs.
        -- exists "", b. simpl. by rewrite <- Hs.
        -- assert (Hq0 : exists q' qs', split c s = q' :: qs' /\ exists b', s = q' ++ b').
           { clear. induction s as [|z s IHs]; simpl; [by exists "", []; split; [|exists ""]|].
             destruct (Ascii.eqb z c); [exists "", (split c s); split; [done|by exists (String z s)]|].
             destruct IHs as (q' & qs' & -> & b' & Hb').
             exists (String z q'), qs'. split; [done|]. exists b'. simpl. by rewrite <- Hb'. }
           destruct Hq0 as (q' & qs' & Hq' & b' & Hb'). rewrite Hq in Hq'.
           inversion Hq'; subst q' qs'. exists "", b'. simpl. by rewrite <- Hb'.
      * destruct (IH _ (or_intror Hin)) as (a & b & Hs).
        exists (String x a), b. simpl. by rewrite <- Hs.
Qed.

(** The pieces of [split(sep, 1)]: the text itself when the separator is
    absent, else the text before and the text after its first occurrence. *)
Lemma split1_cases c s :
  (mem_char c s = false /\ split1 c s = [s])
  \/ (exists k v, mem_char c s = true /\ split1 c s = [k; v] /\ s = k ++ String c v
                   /\ mem_char c k = false).
Proof.
  induction s as [|x s IH]; simpl; [by left|].
  rewrite (Ascii.eqb_sym c x).
  destruct (Ascii.eqb x c) eqn:Hx; simpl.
  - right. apply Ascii.eqb_eq in Hx as ->. by exists "", s.
  - destruct IH as [[Hno ->]|(k & v & Hyes & -> & Hs & Hk)].
    + by left.
    + right. exists (String x k), v. simpl. rewrite (Ascii.eqb_sym c x), Hx. simpl.
      by rewrite <- Hs.
Qed.

Lemma mem_char_occurs c t s : occurs t s -> mem_char c s = false -> mem_char c t = false.
Proof.
  intros (a & b & ->) Hs. rewrite !mem_char_app in Hs.
  apply orb_false_iff in Hs as [_ Hs]. by apply orb_false_iff in Hs as [Hs _].
Qed.

End PyStrFacts.

(** ** The deferred job store *)
Module JobStore.
Import Scheduler.

(** Job ids name their session and their trigger second. *)
Lemma pending_job_id_inj u u' t t' :
  pending_job_id u t = pending_job_id u' t' ->
  u = u' /\ timestamp_int t = timestamp_int t'.
Proof.
  unfold pending_job_id. intros Heq.
  apply (inj (String.append "pending_")) in Heq.
  apply PyStrFacts.sigil_tail_inj in Heq as [-> Hp];
    [|apply PyStrFacts.pretty_Z_no_underscore..].
  split; [done|]. by apply (inj pretty).
Qed.

Lemma pending_job_id_truthy u t : PyStr.truthy (pending_job_id u t) = true.
Proof. done. Qed.

(** [add_bing_me_task] never gets past [add_job]: its placeholder is a
    lambda, which the store cannot pickle. *)
Lemma add_bing_me_task_raises user_id run_time s :
  add_bing_me_task user_id run_time s = Raise ValueError.
Proof. done. Qed.

(** The scheduler after a [CreatePending] call, whether it returned or
    raised. *)
Definition create_pending (user_id : string) (run_time : Z) (s : scheduler) : scheduler :=
  match add_bing_me_task user_id run_time s with
  | Ok s' => s'
  | Raise _ => s
  end.

(** The states the store can be in.  The awaiting pointers live in memory
    and start empty; the jobs persist, so a run can start with any. *)
Inductive reachable : scheduler -> Prop :=
| reach_init s :
    pending_user_tasks s = ∅ -> reachable s
| reach_create user_id run_time s :
    reachable s -> reachable (create_pending user_id run_time s)
| reach_configure user_id p s :
    reachable s -> reachable (configure user_id p s).2
| reach_fire now s :
    reachable s -> reachable (fire now s).2
| reach_register cb s :
    reachable s -> reachable (register_send_message_callback cb s).

Lemma configure_pending user_id p s :
  pending_user_tasks (configure user_id p s).2 = delete user_id (pending_user_tasks s).
Proof.
  destruct p; simpl;
    [unfold update_pending_task_with_message|unfold update_pending_task_with_notebook];
    simpl; repeat case_match; done.
Qed.

(** Without an awaiting pointer, [Configure] changes nothing. *)
Lemma configure_idle user_id p s :
  pending_user_tasks s !! user_id = None ->
  configure user_id p s = (err_no_pending, s).
Proof.
  intros Hnone.
  destruct p; simpl;
    [unfold update_pending_task_with_message|unfold update_pending_task_with_notebook];
    unfold pop_pending; rewrite Hnone, (delete_id _ _ Hnone); by destruct s.
Qed.

(** C9: Configure ([update_pending_task_with_message] or
    [update_pending_task_with_notebook]) for a session with no awaiting job
    returns the "no pending job" text, which asks for [#BingMe] first; the
    call returns a value (it cannot raise) and leaves the whole scheduler,
    its jobs included, as it was. *)
Theorem configure_no_pending_job (user_id message notebook_name : string) (s : scheduler) :
  pending_user_tasks s !! user_id = None ->
  update_pending_task_with_message user_id message s = (err_no_pending, s)
  /\ update_pending_task_with_notebook user_id notebook_name s = (err_no_pending, s)
  /\ PyStr.contains "#BingMe" err_no_pending = true.
Proof.
  intros Hnone. split; [|split].
  - apply (configure_idle user_id (BingMsg message) s Hnone).
  - apply (configure_idle user_id (BingNote notebook_name) s Hnone).
  - by vm_compute.
Qed.

Lemma configure_no_pending_job_witness :
  update_pending_task_with_message "42" "hello"
    (Sched 0 true ∅ (Some O) ∅ []) = (err_no_pending, Sched 0 true ∅ (Some O) ∅ []).
Proof.
  apply (configure_no_pending_job "42" "hello" "nb" (Sched 0 true ∅ (Some O) ∅ [])).
  reflexivity.
Defined.

(** C10: every Configure call clears its session's awaiting pointer,
    whatever it returns; when it fails because the job is gone or because no
    send callback is registered, the jobs are untouched and the pointer stays
    cleared, so that a second Configure for the session gets the "no pending
    job" text. *)
Theorem configure_clears_pointer_first (user_id : string) (p p' : payload) (s : scheduler) :
  let s' := (configure user_id p s).2 in
  pending_user_tasks s' !! user_id = None
  /\ configure user_id p' s' = (err_no_pending, s')
  /\ (forall id, pending_user_tasks s !! user_id = Some id -> PyStr.truthy id = true ->
       apscheduler s !! id = None ->
       (configure user_id p s).1 = err_job_gone /\ apscheduler s' = apscheduler s)
  /\ (forall id j message, pending_user_tasks s !! user_id = Some id -> PyStr.truthy id = true ->
       apscheduler s !! id = Some j -> send_message_callback s = None ->
       p = BingMsg message ->
       (configure user_id p s).1 = err_no_callback /\ apscheduler s' = apscheduler s).
Proof.
  intros s'.
  assert (Hnone : pending_user_tasks s' !! user_id = None).
  { unfold s'. rewrite configure_pending. apply lookup_delete_eq. }
  split; [done|]. split.
  { by apply configure_idle. }
  split.
  - intros id Hid Ht Hgone. unfold s'.
    destruct p; simpl;
      [unfold update_pending_task_with_message|unfold update_pending_task_with_notebook];
      simpl; rewrite Hid, Ht; simpl; rewrite Hgone; done.
  - intros id j message Hid Ht Hj Hcb ->. unfold s'. simpl.
    unfold update_pending_task_with_message. simpl.
    rewrite Hid, Ht. simpl. rewrite Hj, Hcb. done.
Qed.

Lemma configure_clears_pointer_first_witness :
  let s := Sched 0 true {[ "42" := "pending_42_60" ]} None ∅ [] in
  (configure "42" (BingMsg "hello") s).1 = err_job_gone
  /\ configure "42" (BingMsg "hello") (configure "42" (BingMsg "hello") s).2
     = (err_no_pending, (configure "42" (BingMsg "hello") s).2).
Proof.
  intros s.
  pose proof (configure_clears_pointer_first "42" (BingMsg "hello") (BingMsg "hello") s)
    as (_ & Hagain & Hgone & _).
  split; [|exact Hagain].
  apply (Hgone "pending_42_60"); reflexivity.
Defined.

(** No pointer is ever awaiting: the one call that sets pointers raises
    before it does. *)
Lemma reachable_no_pointer s : reachable s -> pending_user_tasks s = ∅.
Proof.
  induction 1 as [s Hs|user_id run_time s _ IH|user_id p s _ IH|now s _ IH|cb s _ IH].
  - done.
  - unfold create_pending. by rewrite add_bing_me_task_raises.
  - rewrite configure_pending, IH. apply delete_empty.
  - exact IH.
  - exact IH.
Qed.

(** C5, as the code has it: [CreatePending] raises in [add_job], on the
    first call and on the second, before a job is stored or a pointer set;
    so after CreatePending(S, t1), CreatePending(S, t2) and
    Configure(S, payload) the scheduler is as it was before the three calls,
    [Configure] has answered that [#BingMe] must come first, and what fires
    at any time is what would have fired without them: no job of t1 stays
    scheduled, none of t2 is rewritten. *)
Theorem placeholder_is_never_stored (S : string) (t1 t2 : Z) (p : payload) (s : scheduler) :
  reachable s ->
  let s2 := create_pending S t2 (create_pending S t1 s) in
  add_bing_me_task S t1 s = Raise ValueError
  /\ add_bing_me_task S t2 (create_pending S t1 s) = Raise ValueError
  /\ s2 = s
  /\ configure S p s2 = (err_no_pending, s)
  /\ (forall now, fire now (configure S p s2).2 = fire now s)
  /\ (apscheduler s !! pending_job_id S t1 = None ->
      forall now, (fire now (configure S p s2).2).1 !! pending_job_id S t1 = None).
Proof.
  intros Hreach s2.
  assert (Hs2 : s2 = s).
  { unfold s2, create_pending. by rewrite !add_bing_me_task_raises. }
  assert (Hconf : configure S p s2 = (err_no_pending, s)).
  { rewrite Hs2. apply configure_idle.
    rewrite (reachable_no_pointer s Hreach). apply lookup_empty. }
  split; [apply add_bing_me_task_raises|]. split; [apply add_bing_me_task_raises|].
  split; [done|]. split; [done|]. rewrite Hconf. split; [done|].
  intros Hnone now. cbn [fire fst snd]. unfold due.
  apply map_lookup_filter_None. by left.
Qed.

Lemma placeholder_is_never_stored_witness :
  let s0 := Sched 0 true ∅ (Some O) ∅ [] in
  configure "42" (BingMsg "hello") (create_pending "42" 120 (create_pending "42" 60 s0))
  = (err_no_pending, s0).
Proof.
  intros s0.
  apply (placeholder_is_never_stored "42" 60 120 (BingMsg "hello") s0).
  apply reach_init. reflexivity.
Defined.

End JobStore.

(** ** The heartbeat watchdog *)
Module Watchdog.
Import Scheduler.

Local Open Scope Q_scope.





(** The heartbeats still to come lie ahead of the clock. *)
Definition ahead (m : monitor) : Prop :=
  Forall (fun h => clock m < h) (heartbeats m).

Lemma deliver_process_calls now hbs s :
  process_calls (deliver now hbs s).1 = process_calls s.
Proof.
  revert s. induction hbs as [|h r IH]; intros s; simpl; [done|].
  destruct (Qle_bool h now).
  - by rewrite IH.
  - specialize (IH s). destruct (deliver now r s). done.
Qed.

Lemma deliver_running now hbs s :
  running (deliver now hbs s).1 = running s.
Proof.
  revert s. induction hbs as [|h r IH]; intros s; simpl; [done|].
  destruct (Qle_bool h now).
  - by rewrite IH.
  - specialize (IH s). destruct (deliver now r s). done.
Qed.

Lemma deliver_ahead now hbs s :
  Forall (fun h => now < h) (deliver now hbs s).2.
Proof.
  revert s. induction hbs as [|h r IH]; intros s; simpl; [constructor|].
  destruct (Qle_bool h now) eqn:Hle; [apply IH|].
  specialize (IH s). destruct (deliver now r s) as [s' r']. simpl in *.
  constructor; [|done].
  apply Qnot_le_lt. intros Hc. apply Qle_bool_iff in Hc. congruence.
Qed.

Lemma deliver_baseline B now hbs s :
  B <= last_heartbeat_time s -> Forall (fun h => B <= h) hbs ->
  B <= last_heartbeat_time (deliver now hbs s).1.
Proof.
  revert s. induction hbs as [|h r IH]; intros s Hs Hall; simpl; [done|].
  inversion Hall as [|? ? Hh Hr]; subst.
  destruct (Qle_bool h now).
  - apply IH; [done|done].
  - specialize (IH s Hs Hr). destruct (deliver now r s). done.
Qed.

Lemma deliver_none_due now hbs s :
  Forall (fun h => now < h) hbs -> deliver now hbs s = (s, hbs).
Proof.
  induction 1 as [|h r Hh _ IH]; simpl; [done|].
  destruct (Qle_bool h now) eqn:Hle.
  - apply Qle_bool_iff in Hle. lra.
  - by rewrite IH.
Qed.



Lemma sleep_self_calls d m : process_calls (self (sleep d m)) = process_calls (self m).
Proof.
  unfold sleep. pose proof (deliver_process_calls (clock m + d) (heartbeats m) (self m)).
  destruct (deliver _ _ _). done.
Qed.

Lemma sleep_running d m : running (self (sleep d m)) = running (self m).
Proof.
  unfold sleep. pose proof (deliver_running (clock m + d) (heartbeats m) (self m)).
  destruct (deliver _ _ _). done.
Qed.

Lemma sleep_clock d m : clock (sleep d m) = clock m + d.
Proof. unfold sleep. destruct (deliver _ _ _). done. Qed.

Lemma sleep_ahead d m : ahead (sleep d m).
Proof.
  unfold ahead, sleep.
  pose proof (deliver_ahead (clock m + d) (heartbeats m) (self m)).
  destruct (deliver _ _ _). done.
Qed.

Lemma sleep_baseline B d m :
  0 <= d -> B <= last_heartbeat_time (self m) -> B <= clock m -> ahead m ->
  B <= last_heartbeat_time (self (sleep d m)).
Proof.
  intros Hd HB Hc Hahead. unfold sleep.
  pose proof (deliver_baseline B (clock m + d) (heartbeats m) (self m) HB) as Hb.
  destruct (deliver _ _ _). simpl. apply Hb.
  eapply Forall_impl; [apply Hahead|]. simpl. intros x Hx. lra.
Qed.





Lemma starts_so_far_stop s :
  starts_so_far (call_process_manager PmStop s) = starts_so_far s.
Proof.
  unfold starts_so_far. simpl. rewrite filter_app, length_app.
  change (length (filter (fun c => c = PmStart) [PmStop])) with O. lia.
Qed.

(** The round that finds the heartbeat too old: one stop, one start; and,
    when the start succeeds, a baseline at the time of the start. *)
Lemma monitor_round_restart start_ok m :
  ahead m ->
  heartbeat_timeout < clock m - last_heartbeat_time (self m) ->
  let m1 := monitor_round start_ok m in
  process_calls (self m1) = (process_calls (self m) ++ [PmStop; PmStart])%list
  /\ ahead m1
  /\ (start_ok (starts_so_far (self m)) = true ->
      clock m + 3 <= last_heartbeat_time (self m1) /\ clock m1 == clock m + 23).
Proof.
  intros Hahead Hgap m1. unfold m1, monitor_round.
  destruct (Qlt_le_dec _ _) as [_|Hle]; [|lra].
  set (ma := on_self (call_process_manager PmStop) m).
  set (mb := sleep 3 ma).
  set (mc := on_self (call_process_manager PmStart) mb).
  assert (Hcalls : process_calls (self mc)
                   = (process_calls (self m) ++ [PmStop; PmStart])%list).
  { unfold mc, mb. simpl. rewrite sleep_self_calls. unfold ma. simpl.
    by rewrite <- app_assoc. }
  assert (Hstarts : starts_so_far (self mb) = starts_so_far (self m)).
  { unfold starts_so_far, mb. rewrite sleep_self_calls. unfold ma.
    apply starts_so_far_stop. }
  rewrite Hstarts.
  assert (Hclock : clock mc = clock m + 3).
  { unfold mc, mb. simpl. rewrite sleep_clock. done. }
  destruct (start_ok (starts_so_far (self m))).
  - set (md := on_self (update_heartbeat (clock mc)) mc).
    assert (Hd : ahead md).
    { unfold md, mc, ahead. simpl. apply (sleep_ahead 3 ma). }
    assert (Hbase : clock m + 3 <= last_heartbeat_time (self md)).
    { change (last_heartbeat_time (self md)) with (clock mc). rewrite Hclock. lra. }
    assert (Hdc : clock md = clock m + 3) by exact Hclock.
    split; [|split; [apply sleep_ahead|]].
    + rewrite !sleep_self_calls. exact Hcalls.
    + intros _. split.
      * apply sleep_baseline; [lra| | |apply sleep_ahead].
        -- apply sleep_baseline; [lra|done|rewrite Hdc; lra|done].
        -- rewrite sleep_clock, Hdc. lra.
      * rewrite !sleep_clock, Hdc. ring.
  - split; [|split; [apply sleep_ahead|done]].
    rewrite sleep_self_calls. exact Hcalls.
Qed.







(** A scheduler that has just started, at time [t]. *)
Definition started (t : Q) : scheduler := Sched t true ∅ None ∅ [].


(** The scenario of the specification: a heartbeat every 5 seconds, 19 of
    them, keeps the watchdog quiet. *)
Example nineteen_heartbeats_on_time :
  process_calls
    (self (monitor_gocq_process (fun _ => true) 1
             (Monitor (started 0) 0
                      [5; 10; 15; 20; 25; 30; 35; 40; 45; 50; 55; 60; 65; 70; 75; 80;
                       85; 90; 95]))) = [].
Proof. vm_compute. reflexivity. Qed.


(** A poll that is late by any margin restarts; one that is exactly at the
    timeout does not. *)
Example gap_of_101 :
  process_calls (self (monitor_loop (fun _ => true) 1 (Monitor (started 0) 101 [])))
  = [PmStop; PmStart].
Proof. vm_compute. reflexivity. Qed.

Example gap_of_100_is_no_gap :
  process_calls (self (monitor_loop (fun _ => true) 1 (Monitor (started 0) 100 []))) = [].
Proof. vm_compute. reflexivity. Qed.

(** A start that fails resets nothing: the next round restarts again. *)
Example failed_start_restarts_again :
  process_calls (self (monitor_loop (fun _ => false) 2 (Monitor (started 0) 101 [])))
  = [PmStop; PmStart; PmStop; PmStart].
Proof. vm_compute. reflexivity. Qed.

End Watchdog.

(** ** The protocol interpreter *)
Module InterpreterFacts.
Import PyStr PyStrFacts Interpreter.

#[local] Arguments String.append !_ _ / : simpl nomatch.

Lemma parse_pair_ok i p ps : exists ps', parse_pair i p ps = Ok ps'.
Proof.
  unfold parse_pair.
  destruct (split1_cases "=" p) as [[-> _]|(k & v & -> & -> & _)]; [|eauto].
  destruct (Nat.eqb i 0); eauto.
Qed.

Lemma parse_pairs_ok i pairs ps : exists ps', parse_pairs i pairs ps = Ok ps'.
Proof.
  revert i ps. induction pairs as [|p pairs IH]; intros i ps; simpl; [eauto|].
  destruct (parse_pair_ok i p ps) as [ps' ->]. simpl. apply IH.
Qed.

(** Without a [key=value] pair, only the first piece counts. *)
Lemma parse_pairs_unkeyed_later i pairs ps :
  Forall (fun p => mem_char "=" p = false) pairs ->
  parse_pairs (S i) pairs ps = Ok ps.
Proof.
  intros Hall. revert i. induction Hall as [|p pairs Hp _ IH]; intros i; simpl; [done|].
  unfold parse_pair. rewrite Hp. simpl. apply IH.
Qed.

Lemma parse_pairs_unkeyed p pairs ps :
  Forall (fun p => mem_char "=" p = false) (p :: pairs) ->
  parse_pairs 0 (p :: pairs) ps = Ok (<["content" := strip p]> ps).
Proof.
  intros Hall. inversion Hall as [|? ? Hp Hrest]; subst. simpl.
  unfold parse_pair. rewrite Hp. simpl. by apply parse_pairs_unkeyed_later.
Qed.

Lemma split_pieces_without c sep s :
  mem_char c s = false -> Forall (fun p => mem_char c p = false) (split sep s).
Proof.
  intros Hs. apply List.Forall_forall. intros p Hin.
  eapply mem_char_occurs; [by apply (split_occurs sep)|done].
Qed.

Lemma cleanup_ok (ps : params) (two_parts : bool) (p1 : pyres string) k :
  (two_parts = true -> exists x, p1 = Ok x) ->
  exists r : string * params,
    (ps ← (if bool_decide (is_Some (ps !! "content")) && not_get "content" ps
           then del "content" ps else Ok ps);
     ps ← (if bool_decide (ps = ∅) && two_parts then
             p1 ← p1; Ok (<["query" := p1]> ps)
           else Ok ps);
     Ok (k, ps)) = Ok r.
Proof.
  intros Hp1. unfold not_get, del.
  assert (Hq : forall ps' : params, exists r : string * params,
             (ps ← (if bool_decide (ps' = ∅) && two_parts then
                      p1 ← p1; Ok (<["query" := p1]> ps')
                    else Ok ps');
              Ok (k, ps)) = Ok r).
  { intros ps'. destruct two_parts.
    - destruct Hp1 as [x ->]; [done|]. destruct (bool_decide _); simpl; eauto.
    - rewrite andb_false_r. simpl. eauto. }
  destruct (ps !! "content") as [c|] eqn:Hc.
  - rewrite bool_decide_eq_true_2 by eauto. simpl.
    destruct (truthy c); simpl; apply Hq.
  - rewrite bool_decide_eq_false_2 by (by intros [? ?]). simpl. apply Hq.
Qed.

Lemma parse_tool_call_ok tool_str : exists r, parse_tool_call tool_str = Ok r.
Proof.
  unfold parse_tool_call.
  destruct (split1_cases "=" (strip tool_str)) as [[_ ->]|(k & v & _ & -> & _)].
  - exact (cleanup_ok ∅ false (Raise IndexError) _ (fun H => False_ind _ (diff_false_true H))).
  - change (exists r, (ps ← parse_pairs 0 (split ";" v) ∅;
                       ps ← (if bool_decide (is_Some (ps !! "content"))
                                && not_get "content" ps
                             then del "content" ps else Ok ps);
                       ps ← (if bool_decide (ps = ∅) && true then
                               p1 ← Ok v; Ok (<["query" := p1]> ps)
                             else Ok ps);
                       Ok (slice_from 1 k, ps)) = Ok r).
    destruct (parse_pairs_ok 0 (split ";" v) ∅) as [ps ->].
    apply (cleanup_ok ps true (Ok v)). eauto.
Qed.

(** C6, as the code has it: parsing never raises; a call segment without
    [=] has no parameter; a call segment whose text after the first [=] holds
    no further [=] has one parameter, which is [content] with the stripped
    text up to the first [;] when that is not empty, and else [query] with
    the raw text after the [=]. *)
Theorem unkeyed_call_parameters (tool_str : string) :
  (exists r, parse_tool_call tool_str = Ok r)
  /\ (forall name, split1 "=" (strip tool_str) = [name] ->
        parse_tool_call tool_str = Ok (slice_from 1 name, ∅))
  /\ (forall name rest,
        split1 "=" (strip tool_str) = [name; rest] -> mem_char "=" rest = false ->
        let first := strip (hd "" (split ";" rest)) in
        parse_tool_call tool_str
        = Ok (slice_from 1 name,
              if truthy first then {["content" := first]} else {["query" := rest]})).
Proof.
  split; [apply parse_tool_call_ok|]. split.
  - intros name Hparts. unfold parse_tool_call. rewrite Hparts. simpl.
    rewrite bool_decide_eq_false_2 by (rewrite lookup_empty; by intros [? ?]).
    done.
  - intros name rest Hparts Hrest first. unfold parse_tool_call. rewrite Hparts. simpl.
    pose proof (split_pieces_without "=" ";" rest Hrest) as Hall.
    unfold first. destruct (split ";" rest) as [|p pairs] eqn:Hsplit;
      [by destruct (split_nonempty ";" rest)|].
    rewrite (parse_pairs_unkeyed p pairs ∅ Hall). simpl.
    rewrite bool_decide_eq_true_2 by (rewrite lookup_insert_eq; eauto).
    unfold not_get. rewrite lookup_insert_eq. simpl.
    destruct (truthy (strip p)) eqn:Hp; simpl.
    + rewrite bool_decide_eq_false_2; [done|].
      intros Hempty. apply (f_equal (fun m => m !! "content")) in Hempty.
      by rewrite lookup_insert_eq, lookup_empty in Hempty.
    + unfold del. rewrite lookup_insert_eq. simpl.
      rewrite delete_insert_eq, delete_empty.
      rewrite bool_decide_eq_true_2 by done. simpl. done.
Qed.

Lemma unkeyed_call_parameters_witness :
  parse_tool_call "#Search=weather" = Ok ("Search", {["content" := "weather"]})
  /\ parse_tool_call "#Search=" = Ok ("Search", {["query" := ""]})
  /\ parse_tool_call " #Memo " = Ok ("Memo", ∅).
Proof.
  split; [|split].
  - apply (proj2 (proj2 (unkeyed_call_parameters "#Search=weather")) "#Search" "weather");
      reflexivity.
  - apply (proj2 (proj2 (unkeyed_call_parameters "#Search=")) "#Search" ""); reflexivity.
  - apply (proj1 (proj2 (unkeyed_call_parameters " #Memo ")) "#Memo"). reflexivity.
Defined.

(** C6 as stated fails: [#Search=weather] has no [key=value] pair, and its
    one parameter is [content], not [query]. *)
Lemma unkeyed_call_is_content_not_query :
  split1 "=" (strip "#Search=weather") = ["#Search"; "weather"]
  /\ mem_char "=" "weather" = false
  /\ parse_tool_call "#Search=weather" = Ok ("Search", {["content" := "weather"]})
  /\ parse_tool_call "#Search=weather" ≠ Ok ("Search", {["query" := "weather"]}).
Proof.
  split; [reflexivity|]. split; [reflexivity|]. split; [by vm_compute|].
  vm_compute. discriminate.
Qed.

Lemma bind_Ok_inv {A B : Type} (m : pyres A) (k : A -> pyres B) r :
  (m ≫= k) = Ok r -> exists a, m = Ok a /\ k a = Ok r.
Proof. destruct m as [a|e]; simpl; [eauto|done]. Qed.

(** The name of a parsed call is the text before the first [=], less its
    first character. *)
Lemma parse_tool_call_name seg name ps :
  parse_tool_call seg = Ok (name, ps) ->
  exists p0 b, strip seg = p0 ++ b /\ name = slice_from 1 p0.
Proof.
  unfold parse_tool_call. intros Hparse.
  apply bind_Ok_inv in Hparse as (p0 & Hp0 & Hparse).
  apply bind_Ok_inv in Hparse as (ps1 & _ & Hparse).
  apply bind_Ok_inv in Hparse as (ps2 & _ & Hparse).
  apply bind_Ok_inv in Hparse as (ps3 & _ & Hparse).
  inversion Hparse; subst. exists p0.
  destruct (split1_cases "=" (strip seg)) as [[_ Hs]|(k & v & _ & Hs & Hcat & _)];
    rewrite Hs in Hp0; inversion Hp0; subst.
  - exists "". by rewrite append_nil_r.
  - eauto.
Qed.

Lemma lstrip_by_keeps p c r : p c = false -> lstrip_by p (String c r) = String c r.
Proof. intros Hc. simpl. by rewrite Hc. Qed.

Lemma rstrip_by_keeps p c r : p c = false -> exists y, rstrip_by p (String c r) = String c y.
Proof. intros Hc. simpl. rewrite Hc. destruct (rstrip_by p r); eauto. Qed.

Lemma strip_keeps_sigil r : exists y, strip (String "#" r) = String "#" y.
Proof. unfold strip. rewrite lstrip_by_keeps by done. by apply rstrip_by_keeps. Qed.

(** A call whose name begins with the marker's name comes from a segment
    that holds the marker. *)
Lemma marker_name_occurs loop_content name ps :
  In (Ok (name, ps)) (map parse_tool_call (tool_calls_str loop_content)) ->
  startswith "NotResp" name = true ->
  occurs "#NotResp" loop_content.
Proof.
  intros Hin Hname.
  apply in_map_iff in Hin as (seg & Hparse & Hseg).
  unfold tool_calls_str in Hseg.
  apply in_map_iff in Hseg as (tc & <- & Htc).
  apply filter_In in Htc as [Htc Hok].
  apply andb_true_iff in Hok as [_ Hsigil].
  apply startswith_spec in Hsigil as [r ->].
  change ("#" ++ r) with (String "#" r) in *.
  destruct (strip_keeps_sigil r) as [y Hy]. rewrite Hy in Hparse.
  apply parse_tool_call_name in Hparse as (p0 & b & Hstrip & ->).
  destruct (strip_keeps_sigil y) as [y' Hy']. rewrite Hy' in Hstrip.
  apply startswith_spec in Hname as [z Hz].
  assert (Hp0 : p0 = "#NotResp" ++ z).
  { destruct p0 as [|c p0]; simpl in Hz; [done|].
    simpl in Hstrip. inversion Hstrip; subst. done. }
  eapply occurs_trans; [|by apply (split_occurs ";")].
  eapply occurs_trans; [|apply (strip_occurs (String "#" r))]. rewrite Hy.
  eapply occurs_trans; [|apply (strip_occurs (String "#" y))]. rewrite Hy', Hstrip, Hp0.
  rewrite append_assoc. apply occurs_prefix.
Qed.

Section Sequence.

Context {W : Type}.
Variable methods : string -> option (@tool_method W).
Variable execute_unknown : @tool_method W.

Abbreviation run := (run_calls methods execute_unknown).
Abbreviation dispatch := (dispatch_tool methods execute_unknown).


(** The loop never stops early: it returns one result per call, after the
    results it started with. *)
Lemma run_calls_results user_id group_id calls acc (w : W) :
  exists rs,
    run user_id group_id calls acc w
    = (Ok (acc ++ rs)%list, (run user_id group_id calls [] w).2)
    /\ length rs = length calls.
Proof.
  revert acc w. induction calls as [|seg calls IH]; intros acc w; simpl.
  - exists []. by rewrite app_nil_r.
  - destruct (parse_tool_call_ok seg) as [[name ps] ->].
    destruct (dispatch name (inject user_id group_id ps) w) as [r w'].
    destruct (IH (acc ++ [r])%list w') as (rs & Hrun & Hlen).
    destruct (IH [r] w') as (rs0 & Hrun0 & _).
    exists (r :: rs). rewrite Hrun, Hrun0. simpl. split; [|by rewrite Hlen].
    by rewrite <- app_assoc.
Qed.


Lemma execute_anloop_sequence_flag anloop_string user_id group_id (w : W) flag content :
  loop_content_of anloop_string = Some (flag, content) ->
  exists results w',
    execute_anloop_sequence methods execute_unknown anloop_string user_id group_id w
    = (Ok (results, flag), w').
Proof.
  unfold loop_content_of, execute_anloop_sequence.
  destruct (search_loops anloop_string) as [g1|]; simpl; [|done].
  intros [= Hc]. rewrite Hc.
  destruct (run_calls_results user_id group_id (tool_calls_str content) [] w)
    as (results & -> & _).
  simpl. eauto.
Qed.

(** C8, as the code has it: when the content of the block begins with
    [#NotResp], the sequence is a background one, and that first occurrence
    of the marker is removed before the content is split into calls; then no
    parsed call is named after the marker unless the marker occurs again.
    When the content does not begin with the marker, the sequence is not a
    background one, wherever else the marker stands. *)
Theorem leading_marker_sets_background (anloop_string g1 user_id : string)
    (group_id : option string) (w : W) :
  search_loops anloop_string = Some g1 ->
  let content := strip g1 in
  let rest := slice_from 8 content in
  (startswith "#NotResp" content = true ->
     (exists results w',
         execute_anloop_sequence methods execute_unknown anloop_string user_id group_id w
         = (Ok (results, true), w'))
     /\ call_segments anloop_string = tool_calls_str (strip_chars "; " rest)
     /\ (find "#NotResp" rest = None ->
         forall name ps, In (Ok (name, ps)) (parsed_calls anloop_string) ->
                         startswith "NotResp" name = false))
  /\ (startswith "#NotResp" content = false ->
      exists results w',
        execute_anloop_sequence methods execute_unknown anloop_string user_id group_id w
        = (Ok (results, false), w')).
Proof.
  intros Hsearch content rest. split.
  - intros Hlead.
    assert (Hc : loop_content_of anloop_string = Some (true, strip_chars "; " rest)).
    { unfold loop_content_of. rewrite Hsearch. simpl. unfold strip_not_resp.
      fold content. rewrite Hlead. by rewrite (replace_first_prefix _ _ Hlead). }
    split; [by eapply execute_anloop_sequence_flag|].
    assert (Hsegs : call_segments anloop_string = tool_calls_str (strip_chars "; " rest)).
    { unfold call_segments. by rewrite Hc. }
    split; [done|].
    intros Hnone name ps Hin.
    destruct (startswith "NotResp" name) eqn:Hname; [|done].
    exfalso. apply (find_None _ _ Hnone).
    unfold parsed_calls in Hin. rewrite Hsegs in Hin.
    eapply occurs_trans; [by eapply marker_name_occurs|].
    apply strip_chars_occurs.
  - intros Hlead. eapply execute_anloop_sequence_flag.
    unfold loop_content_of. rewrite Hsearch. simpl. unfold strip_not_resp.
    fold content. by rewrite Hlead.
Qed.

End Sequence.

(** A sequence whose second call fails: the failure is recorded in place
    and the third call still runs.  The state is the log of the texts the
    [#Log] tool was given. *)
Definition demo_methods (name : string) : option (@tool_method (list string)) :=
  if String.eqb name "_execute_log"
  then Some (fun _ ps w => (inl "logged", w ++ [default "" (ps !! "content")])%list)
  else if String.eqb name "_execute_fail"
       then Some (fun _ _ w => (inr "boom", w))
       else None.

Definition demo_unknown : @tool_method (list string) :=
  fun _ _ w => (inl "unknown", w).

Example failing_call_does_not_stop_the_sequence :
  execute_anloop_sequence demo_methods demo_unknown
    "say <Loops>#Log=a;#Fail=x;#Log=b</Loops>" "42" None []
  = (Ok ([ToolResult true (Some "logged") None;
          ToolResult false None (Some ("执行工具'Fail'时内部错误: " ++ "boom"));
          ToolResult true (Some "logged") None],
         false),
     ["a"; "b"]).
Proof. vm_compute. reflexivity. Qed.


Lemma leading_marker_sets_background_witness :
  (exists results w',
      execute_anloop_sequence demo_methods demo_unknown
        "<Loops> #NotResp;#Log=a </Loops>" "42" None []
      = (Ok (results, true), w'))
  /\ (forall name ps,
        In (Ok (name, ps)) (parsed_calls "<Loops> #NotResp;#Log=a </Loops>") ->
        startswith "NotResp" name = false)
  /\ (exists results w',
        execute_anloop_sequence demo_methods demo_unknown
          "<Loops>#Log=a;#NotResp</Loops>" "42" None []
        = (Ok (results, false), w')).
Proof.
  pose proof (leading_marker_sets_background demo_methods demo_unknown
                "<Loops> #NotResp;#Log=a </Loops>" " #NotResp;#Log=a " "42" None []
                eq_refl) as [Hlead _].
  destruct (Hlead eq_refl) as (Hflag & _ & Hnames).
  pose proof (leading_marker_sets_background demo_methods demo_unknown
                "<Loops>#Log=a;#NotResp</Loops>" "#Log=a;#NotResp" "42" None []
                eq_refl) as [_ Hlater].
  split; [exact Hflag|]. split; [exact (Hnames eq_refl)|]. exact (Hlater eq_refl).
Defined.

(** C8 as stated fails: the marker is removed once, so a block that repeats
    it is a background sequence with a call named after the marker, which is
    dispatched like any other call. *)
Lemma repeated_marker_is_a_call :
  search_loops "<Loops>#NotResp;#NotResp</Loops>" = Some "#NotResp;#NotResp"
  /\ startswith "#NotResp" (strip "#NotResp;#NotResp") = true
  /\ parsed_calls "<Loops>#NotResp;#NotResp</Loops>" = [Ok ("NotResp", ∅)]
  /\ execute_anloop_sequence demo_methods demo_unknown
       "<Loops>#NotResp;#NotResp</Loops>" "42" None []
     = (Ok ([ToolResult true (Some "unknown") None], true), []).
Proof.
  split; [reflexivity|]. split; [reflexivity|]. split; [by vm_compute|].
  vm_compute. reflexivity.
Qed.

End InterpreterFacts.

(** ** The group message aggregator *)
Module AggregatorFacts.
Import QQBot.

Lemma cancel_timer_fields group_id a :
  group_message_buffers (cancel_timer group_id a) = group_message_buffers a
  /\ group_message_timers (cancel_timer group_id a) = group_message_timers a
  /\ random_pos (cancel_timer group_id a) = random_pos a
  /\ handed_off (cancel_timer group_id a) = handed_off a
  /\ length (tasks (cancel_timer group_id a)) = length (tasks a).
Proof.
  unfold cancel_timer, cancel.
  destruct (group_message_timers a !! group_id) as [tid|]; [|done].
  destruct (negb (done tid a)); [|done].
  destruct (tasks a !! tid) as [[| |]|]; simpl; try done.
  by rewrite length_insert.
Qed.

Lemma randint_range random_source lo hi a :
  lo <= hi -> lo <= (randint random_source lo hi a).1 <= hi.
Proof.
  intros Hle. simpl.
  pose proof (Z.mod_pos_bound (random_source (random_pos a)) (hi - lo + 1)). lia.
Qed.

Section Aggregate.

Variable random_source : nat -> Z.

(** C2: every offer draws its own threshold [T + r] with [r] the next
    random value, in [0..R]; a buffer that has reached it is handed off at
    once and no timer task is created.  A timer that wakes up on a
    non-empty buffer draws again, with [r] in [2..R]; a buffer below that
    threshold is left as it is and only the timer handle is removed. *)
Theorem thresholds_drawn_per_event (group_id : string) (msg : msg_event) (a : aggregator) :
  (let buf := (default [] (group_message_buffers a !! group_id) ++ [msg])%list in
   let r := (randint random_source 0 GROUP_MESSAGE_BUFFER_THRESHOLD_RANDOM a).1 in
   let threshold := GROUP_MESSAGE_BUFFER_THRESHOLD_FIXED + r in
   let a' := buffer_group_message random_source group_id msg a in
   0 <= r <= GROUP_MESSAGE_BUFFER_THRESHOLD_RANDOM
   /\ r = random_source (random_pos a) mod 6
   /\ random_pos a' = S (random_pos a)
   /\ (threshold <= Z.of_nat (length buf) ->
       group_message_buffers a' = delete group_id (group_message_buffers a)
       /\ handed_off a' = (handed_off a ++ [(group_id, buf)])%list
       /\ group_message_timers a' = group_message_timers a
       /\ length (tasks a') = length (tasks a))
   /\ (Z.of_nat (length buf) < threshold ->
       group_message_buffers a' = <[group_id := buf]> (group_message_buffers a)
       /\ handed_off a' = handed_off a
       /\ group_message_timers a' !! group_id = Some (length (tasks a))
       /\ tasks a' !! length (tasks a) = Some Sleeping))
  /\ (forall tid buf,
        tasks a !! tid = Some Sleeping ->
        group_message_buffers a !! group_id = Some buf -> buf ≠ [] ->
        let r := (randint random_source 2 GROUP_MESSAGE_BUFFER_THRESHOLD_RANDOM a).1 in
        let threshold := GROUP_MESSAGE_BUFFER_THRESHOLD_FIXED + r in
        let a' := start_group_message_timer random_source tid group_id a in
        2 <= r <= GROUP_MESSAGE_BUFFER_THRESHOLD_RANDOM
        /\ r = 2 + random_source (random_pos a) mod 4
        /\ random_pos a' = S (random_pos a)
        /\ (Z.of_nat (length buf) < threshold ->
            group_message_buffers a' = group_message_buffers a
            /\ handed_off a' = handed_off a
            /\ group_message_timers a' = delete group_id (group_message_timers a))
        /\ (threshold <= Z.of_nat (length buf) ->
            group_message_buffers a' = delete group_id (group_message_buffers a)
            /\ handed_off a' = (handed_off a ++ [(group_id, buf)])%list
            /\ group_message_timers a' = delete group_id (group_message_timers a))).
Proof.
  split.
  - intros buf r threshold a'.
    split; [apply randint_range; done|]. split; [done|].
    unfold a', buffer_group_message. fold buf.
    set (a1 := set_buffers (<[group_id:=buf]> (group_message_buffers a)) a).
    destruct (cancel_timer_fields group_id a1) as (Hb & Ht & Hr & Hh & Hl).
    set (a2 := cancel_timer group_id a1) in *.
    assert (Hdraw : (randint random_source 0 GROUP_MESSAGE_BUFFER_THRESHOLD_RANDOM a2).1 = r).
    { unfold r. simpl. by rewrite Hr. }
    destruct (randint random_source 0 GROUP_MESSAGE_BUFFER_THRESHOLD_RANDOM a2)
      as [r2 a3] eqn:Hrand.
    simpl in Hdraw. subst r2. fold threshold.
    assert (Ha3 : a3 = Aggregator (group_message_buffers a2) (group_message_timers a2)
                                  (tasks a2) (S (random_pos a2)) (handed_off a2))
      by (by inversion Hrand).
    assert (Hnonempty : buf ≠ []) by (unfold buf; by destruct (default [] _)).
    destruct (Z.leb_spec threshold (Z.of_nat (length buf))) as [Hge|Hlt].
    + unfold process_buffered_group_messages.
      rewrite Ha3. simpl. rewrite Hb. unfold a1 at 1. simpl. rewrite lookup_insert_eq.
      destruct buf as [|m0 buf0] eqn:Hbuf; [done|]. simpl.
      split; [by rewrite Hr|]. split; [|intros; simpl in *; lia].
      intros _. rewrite Hh, Ht, Hl. unfold a1. simpl.
      by rewrite delete_insert_eq.
    + rewrite Ha3. simpl. split; [by rewrite Hr|]. split; [intros; lia|].
      intros _. rewrite Hb, Hh, Hl. unfold a1. simpl.
      split; [done|]. split; [done|]. split; [by rewrite lookup_insert_eq|].
      rewrite lookup_app_r by (rewrite Hl; unfold a1; simpl; lia).
      rewrite Hl. unfold a1. simpl. by rewrite Nat.sub_diag.
  - intros tid buf Htid Hbuf Hne r threshold a'.
    split; [apply randint_range; done|]. split; [done|].
    unfold a', start_group_message_timer. rewrite Htid, Hbuf.
    destruct buf as [|m0 buf0]; [done|].
    unfold threshold, r. cbn [randint fst snd].
    match goal with |- context [if ?c then _ else _] => destruct c eqn:Hcmp end.
    + apply Z.leb_le in Hcmp.
      unfold process_buffered_group_messages. simpl. rewrite Hbuf. simpl.
      split; [done|]. split; [intros; simpl in *; lia|]. done.
    + apply Z.leb_gt in Hcmp.
      simpl. split; [done|]. split; [done|]. intros; simpl in *; lia.
Qed.

End Aggregate.

(** An empty aggregator, and a message. *)
Definition idle : aggregator := Aggregator ∅ ∅ [] O [].
Definition hello (n : Z) : msg_event := MsgEvent n "42" "an" "hello".

Lemma thresholds_drawn_per_event_witness :
  group_message_buffers (start_group_message_timer (fun _ => 0) O "7"
                           (buffer_group_message (fun _ => 0) "7" (hello 1) idle))
  = {[ "7" := [hello 1] ]}
  /\ group_message_timers (start_group_message_timer (fun _ => 0) O "7"
                            (buffer_group_message (fun _ => 0) "7" (hello 1) idle))
     = ∅.
Proof.
  pose proof (thresholds_drawn_per_event (fun _ => 0) "7" (hello 1)
                (buffer_group_message (fun _ => 0) "7" (hello 1) idle)) as [_ Hexpiry].
  destruct (Hexpiry O [hello 1] eq_refl eq_refl ltac:(discriminate))
    as (_ & _ & _ & Hbelow & _).
  destruct Hbelow as (Hb & _ & Ht); [vm_compute; reflexivity|].
  split; [rewrite Hb|rewrite Ht]; vm_compute; reflexivity.
Defined.

(** With the random source at 0 the threshold of an offer is [T]: the fifth
    message of a group is handed off with the four before it, oldest first,
    and creates no timer. *)
Example fifth_message_flushes :
  let a4 := foldl (fun a n => buffer_group_message (fun _ => 0) "7" (hello n) a)
                  idle [1; 2; 3; 4] in
  let a5 := buffer_group_message (fun _ => 0) "7" (hello 5) a4 in
  handed_off a5 = [("7", [hello 1; hello 2; hello 3; hello 4; hello 5])]
  /\ length (tasks a5) = length (tasks a4)
  /\ group_message_buffers a5 = ∅.
Proof. vm_compute. done. Qed.

End AggregatorFacts.

(** ** The reply throttler *)
Module ThrottlerFacts.
Import QQBot.

Local Open Scope Q_scope.

Section Send.

Variable call_gemini_api : string -> string -> string -> option string.
Variable http_post : post -> post_outcome.

Abbreviation send := (send_message call_gemini_api http_post).
Abbreviation parts := (send_parts http_post).

(** Sending messages touches neither the send times nor the pending replies. *)
Lemma send_parts_gate i ep tgt user_id group_id message_type content msgs t :
  last_group_reply_time (parts i ep tgt user_id group_id message_type content msgs t)
  = last_group_reply_time t
  /\ group_reply_buffers (parts i ep tgt user_id group_id message_type content msgs t)
     = group_reply_buffers t.
Proof.
  revert i t. induction msgs as [|m msgs IH]; intros i t; simpl; [done|].
  destruct (http_post _); [| |done].
  - destruct (Nat.eqb i 0);
      match goal with
      | |- context [parts ?j _ _ _ _ _ _ msgs ?u] => by destruct (IH j u) as [-> ->]
      end.
  - match goal with
    | |- context [parts ?j _ _ _ _ _ _ msgs ?u] => by destruct (IH j u) as [-> ->]
    end.
Qed.

(** One message to send is one request to the gateway. *)
Lemma send_parts_one ep tgt user_id group_id message_type content m t :
  posts (parts 0 ep tgt user_id group_id message_type content [m] t)
  = (posts t ++ [Post ep tgt m])%list.
Proof. simpl. by destruct (http_post _). Qed.

(** The gate of a group send that is let through leaves one message. *)
Lemma group_gate_one g content now msg t msgs t' :
  group_gate call_gemini_api g content now [msg] t = (Some msgs, t') ->
  exists m, msgs = [m].
Proof.
  unfold group_gate. destruct (Qlt_le_dec _ _); [done|].
  destruct (group_reply_buffers t !! g) as [[|b bs]|]; simpl.
  - intros [= <- _]. eauto.
  - destruct (call_gemini_api _ _ _); intros [= <- _]; eauto.
  - intros [= <- _]. eauto.
Qed.

(** The first of the messages to send is always requested. *)
Lemma send_parts_first i ep tgt user_id group_id message_type content m rest t :
  exists more,
    posts (parts i ep tgt user_id group_id message_type content (m :: rest) t)
    = (posts t ++ Post ep tgt m :: more)%list.
Proof.
  assert (Hext : forall msgs j u, exists more,
            posts (parts j ep tgt user_id group_id message_type content msgs u)
            = (posts u ++ more)%list).
  { induction msgs as [|x msgs IH]; intros j u; cbn [send_parts].
    - exists []. by rewrite app_nil_r.
    - destruct (http_post _).
      + destruct (Nat.eqb j 0);
          match goal with
          | |- context [parts ?k _ _ _ _ _ _ msgs ?v] =>
              destruct (IH k v) as [more ->]; cbn [posts]; exists (Post ep tgt x :: more);
              by rewrite <- app_assoc
          end.
      + match goal with
        | |- context [parts ?k _ _ _ _ _ _ msgs ?v] =>
            destruct (IH k v) as [more ->]; cbn [posts]; exists (Post ep tgt x :: more);
            by rewrite <- app_assoc
        end.
      + cbn [posts]. by exists [Post ep tgt x]. }
  cbn [send_parts]. destruct (http_post _).
  - destruct (Nat.eqb i 0);
      match goal with
      | |- context [parts ?k _ _ _ _ _ _ rest ?v] =>
          destruct (Hext rest k v) as [more ->]; cbn [posts]; exists more;
          by rewrite <- app_assoc
      end.
  - match goal with
    | |- context [parts ?k _ _ _ _ _ _ rest ?v] =>
        destruct (Hext rest k v) as [more ->]; cbn [posts]; exists more;
        by rewrite <- app_assoc
    end.
  - cbn [posts]. by exists [].
Qed.

(** What a private send has to send is never nothing. *)
Lemma private_messages_nonempty content :
  exists first rest,
    (if (MAX_MESSAGE_LENGTH_PRIVATE <? String.length content)%nat
     then chunks MAX_MESSAGE_LENGTH_PRIVATE content
     else [content]) = first :: rest.
Proof.
  destruct (Nat.ltb_spec MAX_MESSAGE_LENGTH_PRIVATE (String.length content)) as [Hlong|_];
    [|eauto].
  destruct content as [|c r]; [simpl in Hlong; lia|].
  unfold chunks. cbn [String.length chunks_from]. eauto.
Qed.

(** C3, as the code has it: a send to a group [s] (a numeric group id)
    within the cooldown window transmits nothing; the content is appended to
    the replies pending for [s] and the time of the last send is left as it
    was.  The time of the last send changes only in a call that makes a
    request to the gateway.  A private send is not gated: with a numeric
    user id it makes a request whatever the time, appends to no pending
    replies and records no send time; with another user id it raises before
    any request. *)
Theorem cooldown_buffers_reply (user_id s content : string) (at_user_id : option string)
    (now : Q) (t : throttler) (n : Z) :
  (PyStr.truthy s = true -> int s = Ok n ->
   now - default 0 (last_group_reply_time t !! s) < GROUP_REPLY_COOLDOWN ->
   exists t',
     send user_id (Some s) "group" content at_user_id now t = Ok t'
     /\ posts t' = posts t
     /\ history t' = history t
     /\ group_reply_buffers t'
        = <[s := (default [] (group_reply_buffers t !! s) ++ [content])%list]>
            (group_reply_buffers t)
     /\ last_group_reply_time t' = last_group_reply_time t)
  /\ (forall group_id message_type t',
        send user_id group_id message_type content at_user_id now t = Ok t' ->
        last_group_reply_time t' ≠ last_group_reply_time t ->
        exists p, posts t' = (posts t ++ [p])%list)
  /\ (forall group_id,
        match int user_id with
        | Ok tgt =>
            exists t' first more,
              send user_id group_id "private" content at_user_id now t = Ok t'
              /\ posts t' = (posts t ++ Post "/send_private_msg" tgt first :: more)%list
              /\ group_reply_buffers t' = group_reply_buffers t
              /\ last_group_reply_time t' = last_group_reply_time t
        | Raise e =>
            send user_id group_id "private" content at_user_id now t = Raise e
        end).
Proof.
  split; [|split].
  - intros Hs Hint Hcool. unfold send_message. simpl. rewrite Hs, Hint. simpl.
    unfold group_gate.
    destruct (Qlt_le_dec _ _) as [_|Hle]; [|lra].
    eexists. split; [reflexivity|]. done.
  - intros group_id message_type t' Hsend Hchanged. unfold send_message in Hsend.
    destruct (String.eqb message_type "private").
    + destruct (int user_id) as [tgt|e]; simpl in Hsend; [|done].
      injection Hsend as <-. exfalso. apply Hchanged. apply send_parts_gate.
    + destruct group_id as [g|]; [|injection Hsend as <-; done].
      destruct (String.eqb message_type "group" && PyStr.truthy g);
        [|injection Hsend as <-; done].
      destruct (int g) as [tgt|e]; simpl in Hsend; [|done].
      set (msg := match at_user_id with
                  | Some u => if PyStr.truthy u
                              then "[CQ:at,qq=" +:+ u +:+ "] " +:+ content
                              else content
                  | None => content
                  end).
      assert (Hmsgs : match at_user_id with
                      | Some u => if PyStr.truthy u
                                  then ["[CQ:at,qq=" +:+ u +:+ "] " +:+ content]
                                  else [content]
                      | None => [content]
                      end = [msg]).
      { unfold msg. destruct at_user_id as [u|]; [|done]. by destruct (PyStr.truthy u). }
      rewrite Hmsgs in Hsend.
      destruct (group_gate call_gemini_api g content now [msg] t) as [[msgs|] t1] eqn:Hgate.
      * destruct (group_gate_one _ _ _ _ _ _ _ Hgate) as [m ->].
        apply (f_equal (fun r => match r with Ok x => posts x | Raise _ => [] end))
          in Hsend.
        rewrite send_parts_one in Hsend. rewrite <- Hsend.
        assert (Hp : posts t1 = posts t).
        { unfold group_gate in Hgate. destruct (Qlt_le_dec _ _); [done|].
          destruct (group_reply_buffers t !! g) as [[|b bs]|];
            [| destruct (call_gemini_api _ _ _) |]; by inversion Hgate. }
        rewrite Hp. eauto.
      * injection Hsend as <-. exfalso. apply Hchanged.
        unfold group_gate in Hgate. destruct (Qlt_le_dec _ _); [|].
        -- by inversion Hgate.
        -- destruct (group_reply_buffers t !! g) as [[|b bs]|];
             [| destruct (call_gemini_api _ _ _) |]; by inversion Hgate.
  - intros group_id. unfold send_message. cbn [String.eqb Ascii.eqb Bool.eqb].
    destruct (int user_id) as [tgt|e]; cbn [mbind pyres_bind]; [|done].
    destruct (private_messages_nonempty content) as (first & rest & ->).
    destruct (send_parts_first 0 "/send_private_msg" tgt user_id group_id "private"
                content first rest t) as [more Hposts].
    eexists. exists first, more. split; [reflexivity|]. split; [exact Hposts|].
    destruct (send_parts_gate 0 "/send_private_msg" tgt user_id group_id "private"
                content (first :: rest) t) as [Hlast Hbuf].
    done.
Qed.

(** C1, as the code has it: a group send outside the cooldown window with
    replies pending makes one request to the gateway.  Its message is the
    text the summarization returns for the pending replies and the new
    content, joined by newlines inside the prompt; when the summarization
    fails, its message is the fixed apology [summary_failed].  Either way
    the pending replies are consumed and the send time is set. *)
Theorem merged_reply_or_apology (user_id g content : string) (at_user_id : option string)
    (now : Q) (t : throttler) (n : Z) (buffered : list string) :
  PyStr.truthy g = true -> int g = Ok n ->
  GROUP_REPLY_COOLDOWN <= now - default 0 (last_group_reply_time t !! g) ->
  group_reply_buffers t !! g = Some buffered -> buffered ≠ [] ->
  let combined := PyStr.join PyStr.newline (buffered ++ [content]) in
  let merged :=
    match call_gemini_api pro_model_name (summary_prompt combined)
                          summary_system_instruction with
    | Some final_reply_content => final_reply_content
    | None => summary_failed
    end in
  exists t',
    send user_id (Some g) "group" content at_user_id now t = Ok t'
    /\ posts t' = (posts t ++ [Post "/send_group_msg" n merged])%list
    /\ group_reply_buffers t' = delete g (group_reply_buffers t)
    /\ last_group_reply_time t' = <[g := now]> (last_group_reply_time t).
Proof.
  intros Hg Hint Hcool Hbuf Hne combined merged.
  unfold send_message. simpl. rewrite Hg, Hint. simpl.
  unfold group_gate.
  destruct (Qlt_le_dec _ _) as [Hlt|_]; [lra|].
  rewrite Hbuf. destruct buffered as [|b bs]; [done|].
  fold combined. unfold merged.
  destruct (call_gemini_api pro_model_name (summary_prompt combined)
                            summary_system_instruction) as [final|];
    cbv zeta beta iota; cbn [fst snd last_group_reply_time group_reply_buffers posts history];
    (eexists; split; [reflexivity|]);
    rewrite send_parts_one; (split; [done|]);
    match goal with
    | |- context [parts 0 ?ep ?tgt ?u ?gid ?mt ?c ?msgs ?t0] =>
        destruct (send_parts_gate 0 ep tgt u gid mt c msgs t0) as [Hl Hb]
    end;
    rewrite Hl, Hb; done.
Qed.

End Send.

(** Collaborators for the examples: a summarization that works, one that
    fails, and a gateway that accepts every request. *)
Definition summarizer_ok : string -> string -> string -> option string :=
  fun _ _ _ => Some "summary".
Definition summarizer_down : string -> string -> string -> option string :=
  fun _ _ _ => None.
Definition gateway_ok : post -> post_outcome := fun _ => PostOk.

(** Group 2 was last answered at second 100 and has one reply pending. *)
Definition one_pending : throttler :=
  Throttler {[ "2" := 100 ]} {[ "2" := ["a"] ]} [] [].

Lemma cooldown_buffers_reply_witness :
  exists t',
    send_message summarizer_ok gateway_ok "1" (Some "2") "group" "b" None
                 (100001 # 1000) one_pending = Ok t'
    /\ posts t' = []
    /\ history t' = []
    /\ group_reply_buffers t' = <[ "2" := ["a"; "b"] ]> {[ "2" := ["a"] ]}
    /\ last_group_reply_time t' = {[ "2" := 100 ]}.
Proof.
  apply (proj1 (cooldown_buffers_reply summarizer_ok gateway_ok "1" "2" "b" None
                  (100001 # 1000) one_pending 2)).
  - reflexivity.
  - reflexivity.
  - vm_compute. reflexivity.
Defined.

Lemma merged_reply_or_apology_witness :
  exists t',
    send_message summarizer_ok gateway_ok "1" (Some "2") "group" "b" None 120 one_pending
    = Ok t'
    /\ posts t' = [Post "/send_group_msg" 2 "summary"]
    /\ group_reply_buffers t' = delete "2" {[ "2" := ["a"] ]}
    /\ last_group_reply_time t' = <[ "2" := 120 ]> {[ "2" := 100 ]}.
Proof.
  apply (merged_reply_or_apology summarizer_ok gateway_ok "1" "2" "b" None 120
           one_pending 2 ["a"]).
  - reflexivity.
  - reflexivity.
  - vm_compute. discriminate.
  - reflexivity.
  - discriminate.
Defined.

(** C1 as stated fails: when the summarization fails, the one message sent
    is the apology, not the pending replies and the content joined by
    newlines. *)
Lemma failed_summary_sends_apology :
  exists t',
    send_message summarizer_down gateway_ok "1" (Some "2") "group" "b" None 120 one_pending
    = Ok t'
    /\ posts t' = [Post "/send_group_msg" 2 summary_failed]
    /\ posts t' ≠ [Post "/send_group_msg" 2 (PyStr.join PyStr.newline ["a"; "b"])].
Proof.
  eexists. split; [vm_compute; reflexivity|].
  split; [reflexivity|]. vm_compute. discriminate.
Qed.

(** The scenario of the specification: a first send goes out and sets the
    send time, a second one a millisecond later is buffered, a third one
    after the window goes out as one merged message. *)
Example three_sends :
  let t0 := Throttler ∅ ∅ [] [] in
  forall t1 t2 t3,
    send_message summarizer_ok gateway_ok "1" (Some "2") "group" "first" None 100 t0
    = Ok t1 ->
    send_message summarizer_ok gateway_ok "1" (Some "2") "group" "second" None
                 (100001 # 1000) t1 = Ok t2 ->
    send_message summarizer_ok gateway_ok "1" (Some "2") "group" "third" None 121 t2
    = Ok t3 ->
    posts t1 = [Post "/send_group_msg" 2 "first"]
    /\ posts t2 = posts t1
    /\ group_reply_buffers t2 !! "2" = Some ["second"]
    /\ posts t3 = [Post "/send_group_msg" 2 "first"; Post "/send_group_msg" 2 "summary"]
    /\ group_reply_buffers t3 !! "2" = None.
Proof.
  intros t0 t1 t2 t3 H1 H2 H3.
  vm_compute in H1. injection H1 as <-.
  vm_compute in H2. injection H2 as <-.
  vm_compute in H3. injection H3 as <-.
  vm_compute. done.
Qed.

(** C3 as stated fails for the sessions that are private chats: a private
    send does not pass through the gate.  A second send to user 2, one
    millisecond after the first one went out, goes out too and nothing is
    left pending; and a private send goes out even when the send time kept
    under its key is a millisecond old. *)
Lemma private_sends_are_not_gated :
  (exists t1 t2,
      send_message summarizer_ok gateway_ok "2" None "private" "a" None 100
                   (Throttler ∅ ∅ [] []) = Ok t1
      /\ send_message summarizer_ok gateway_ok "2" None "private" "b" None
                      (100001 # 1000) t1 = Ok t2
      /\ posts t2 = [Post "/send_private_msg" 2 "a"; Post "/send_private_msg" 2 "b"]
      /\ group_reply_buffers t2 = ∅)
  /\ (exists t',
        (100001 # 1000) - default 0 (last_group_reply_time one_pending !! "2")
        < GROUP_REPLY_COOLDOWN
        /\ send_message summarizer_ok gateway_ok "2" None "private" "b" None
                        (100001 # 1000) one_pending = Ok t'
        /\ posts t' = [Post "/send_private_msg" 2 "b"]
        /\ group_reply_buffers t' = group_reply_buffers one_pending).
Proof.
  split.
  - eexists. eexists. split; [vm_compute; reflexivity|].
    split; [vm_compute; reflexivity|]. split; reflexivity.
  - eexists. split; [vm_compute; reflexivity|].
    split; [vm_compute; reflexivity|]. split; reflexivity.
Qed.

End ThrottlerFacts.

(* ===================================================================== *)
(** * Part III: further properties of the code                            *)
(* ===================================================================== *)

(** ** More on Python strings *)
Module PyStrMore.
Import PyStr PyStrFacts.

#[local] Arguments String.append !_ _ / : simpl nomatch.

Lemma find_Some_occurs t s i : find t s = Some i -> occurs t s.
Proof.
  revert i. induction s as [|c r IH]; intros i; simpl.
  - destruct (startswith t "") eqn:Hst; [|done].
    intros _. apply startswith_spec in Hst as [b ->]. apply occurs_prefix.
  - destruct (startswith t (String c r)) eqn:Hst.
    + intros _. apply startswith_spec in Hst as [b ->]. apply occurs_prefix.
    + destruct (find t r) as [j|] eqn:Hj; [|done]. intros _.
      destruct (IH j eq_refl) as (a & b & ->). by exists (String c a), b.
Qed.

(** A text whose first character does not occur before it is found right
    after what precedes it. *)
Lemma find_after c t a b :
  mem_char c a = false ->
  find (String c t) (a ++ String c t ++ b) = Some (String.length a).
Proof.
  intros Ha. induction a as [|x a IH].
  - apply find_startswith. apply startswith_spec. by exists b.
  - simpl in Ha. apply orb_false_iff in Ha as [Hx Ha].
    specialize (IH Ha).
    cbn [String.append find startswith String.length] in *. rewrite Hx. simpl.
    by rewrite IH.
Qed.

Lemma slice_to_append a b : slice_to (String.length a) (a ++ b) = a.
Proof. induction a as [|x a IH]; simpl; [by destruct b|by rewrite IH]. Qed.

Lemma slice_from_append_add a n b :
  slice_from (String.length a + n) (a ++ b) = slice_from n b.
Proof. induction a as [|x a IH]; simpl; [done|apply IH]. Qed.

Lemma mem_char_false_split c s : mem_char c s = false -> split c s = [s].
Proof.
  induction s as [|x s IH]; simpl; [done|].
  rewrite (Ascii.eqb_sym c x). intros Hs. apply orb_false_iff in Hs as [-> Hs].
  by rewrite (IH Hs).
Qed.

(** Splitting distributes over a separator. *)
Lemma split_app c s1 s2 :
  split c (s1 ++ String c s2) = (split c s1 ++ split c s2)%list.
Proof.
  induction s1 as [|x s1 IH]; simpl.
  - by rewrite Ascii.eqb_refl.
  - destruct (Ascii.eqb x c); [by rewrite IH|].
    rewrite IH. destruct (split c s1) as [|p ps] eqn:Hp; [|done].
    by destruct (split_nonempty c s1).
Qed.

End PyStrMore.

(** ** More on the protocol interpreter *)
Module InterpreterMore.
Import PyStr PyStrFacts PyStrMore Interpreter InterpreterFacts.

#[local] Arguments String.append !_ _ / : simpl nomatch.

(** The block between the first pair of tags comes out as it went in. *)
Lemma search_loops_wrapped before content after :
  mem_char "<" before = false -> mem_char "<" content = false ->
  search_loops (before ++ "<Loops>" ++ content ++ "</Loops>" ++ after) = Some content.
Proof.
  intros Hb Hc. unfold search_loops.
  rewrite (find_after "<" "Loops>" before _ Hb).
  rewrite slice_from_append_add.
  change (slice_from 7 ("<Loops>" ++ content ++ "</Loops>" ++ after))
    with (content ++ "</Loops>" ++ after).
  rewrite (find_after "<" "/Loops>" content after Hc).
  by rewrite slice_to_append.
Qed.

Lemma search_loops_none s :
  ~ occurs "<Loops>" s \/ ~ occurs "</Loops>" s -> search_loops s = None.
Proof.
  intros Hno. unfold search_loops.
  destruct (find "<Loops>" s) as [i|] eqn:Hopen; [|done].
  destruct (find "</Loops>" (slice_from (i + 7) s)) as [j|] eqn:Hclose; [|done].
  exfalso. destruct Hno as [Hno|Hno]; apply Hno.
  - by eapply find_Some_occurs.
  - eapply occurs_trans; [by eapply find_Some_occurs|apply slice_from_occurs].
Qed.

Section Execution.

Context {W : Type}.
Variable methods : string -> option (@tool_method W).
Variable execute_unknown : @tool_method W.

Abbreviation execute := (execute_anloop_sequence methods execute_unknown).

(** Only the first block of a reply is executed, and it is executed as it
    stands: the text before the first [<Loops>] and everything after the
    first [</Loops>] that follows it, a second block included, has no part
    in it. *)
Theorem first_block_only (before content after user_id : string)
    (group_id : option string) (w : W) :
  mem_char "<" before = false -> mem_char "<" content = false ->
  search_loops (before ++ "<Loops>" ++ content ++ "</Loops>" ++ after) = Some content
  /\ execute (before ++ "<Loops>" ++ content ++ "</Loops>" ++ after) user_id group_id w
     = execute ("<Loops>" ++ content ++ "</Loops>") user_id group_id w.
Proof.
  intros Hb Hc. split; [by apply search_loops_wrapped|].
  unfold execute_anloop_sequence.
  rewrite (search_loops_wrapped before content after Hb Hc).
  change (search_loops ("<Loops>" ++ content ++ "</Loops>"))
    with (search_loops ("" ++ "<Loops>" ++ content ++ "</Loops>" ++ "")).
  by rewrite (search_loops_wrapped "" content "" eq_refl Hc).
Qed.

(** A reply without an opening tag, or without a closing tag, runs no tool:
    the result list is empty, the sequence is not a background one and the
    state is untouched. *)
Theorem no_block_no_dispatch (anloop_string user_id : string)
    (group_id : option string) (w : W) :
  ~ occurs "<Loops>" anloop_string \/ ~ occurs "</Loops>" anloop_string ->
  execute anloop_string user_id group_id w = (Ok ([], false), w).
Proof.
  intros Hno. unfold execute_anloop_sequence. by rewrite (search_loops_none _ Hno).
Qed.

Definition no_user_id : ToolExecutionResult :=
  ToolResult false None (Some "所有工具调用都必须包含 user_id").

Lemma inject_user_id user_id group_id ps :
  inject user_id group_id ps !! "user_id" = Some user_id.
Proof.
  unfold inject. destruct group_id as [g|]; [destruct (truthy g)|];
    rewrite ?lookup_insert_ne by done; by rewrite lookup_insert_eq.
Qed.

Lemma run_calls_no_user group_id calls acc (w : W) :
  run_calls methods execute_unknown "" group_id calls acc w
  = (Ok (acc ++ replicate (length calls) no_user_id)%list, w).
Proof.
  revert acc. induction calls as [|seg calls IH]; intros acc; simpl.
  - by rewrite app_nil_r.
  - destruct (parse_tool_call_ok seg) as [[name ps] ->].
    unfold dispatch_tool at 1. rewrite inject_user_id. simpl.
    rewrite IH. by rewrite <- app_assoc.
Qed.

(** The caller's identity is what the tools get, whatever the text says; so
    with an empty caller id every call of a sequence fails with the same
    error, no tool method runs and the state is untouched. *)
Theorem no_caller_no_tool (anloop_string : string) (group_id : option string) (w : W) :
  (forall user_id ps, inject user_id group_id ps !! "user_id" = Some user_id)
  /\ exists flag,
       execute anloop_string "" group_id w
       = (Ok (replicate (length (call_segments anloop_string)) no_user_id, flag), w).
Proof.
  split; [intros; apply inject_user_id|].
  unfold execute_anloop_sequence, call_segments, loop_content_of.
  destruct (search_loops anloop_string) as [g1|]; simpl; [|by exists false].
  destruct (strip_not_resp (strip g1)) as [flag content].
  rewrite run_calls_no_user. by exists flag.
Qed.

End Execution.

Lemma tool_calls_str_app s1 s2 :
  tool_calls_str (s1 ++ String ";" s2) = (tool_calls_str s1 ++ tool_calls_str s2)%list.
Proof.
  unfold tool_calls_str. by rewrite split_app, List.filter_app, map_app.
Qed.

(** A piece between two separators that does not begin with [#] is no call,
    wherever it stands: a call written after a blank, as in [#A=1; #B=2], is
    dropped with it. *)
Theorem piece_without_sigil_dropped (s1 piece s2 : string) :
  mem_char ";" piece = false -> startswith "#" piece = false ->
  tool_calls_str (s1 ++ ";" ++ piece ++ ";" ++ s2)
  = (tool_calls_str s1 ++ tool_calls_str s2)%list.
Proof.
  intros Hsep Hsigil.
  change (s1 ++ ";" ++ piece ++ ";" ++ s2) with (s1 ++ String ";" (piece ++ String ";" s2)).
  rewrite !tool_calls_str_app.
  assert (Hdrop : tool_calls_str piece = []).
  { unfold tool_calls_str. rewrite (mem_char_false_split _ _ Hsep).
    cbn [List.filter]. by rewrite Hsigil, andb_false_r. }
  by rewrite Hdrop.
Qed.

Lemma piece_without_sigil_dropped_witness :
  tool_calls_str ("#A=1" ++ ";" ++ " #B=2" ++ ";" ++ "#C=3") = ["#A=1"; "#C=3"].
Proof.
  rewrite (piece_without_sigil_dropped "#A=1" " #B=2" "#C=3"); reflexivity.
Defined.

Lemma first_block_only_witness :
  execute_anloop_sequence demo_methods demo_unknown
    ("ok " ++ "<Loops>" ++ "#Log=a" ++ "</Loops>" ++ " <Loops>#Log=b</Loops>") "42" None []
  = execute_anloop_sequence demo_methods demo_unknown
      ("<Loops>" ++ "#Log=a" ++ "</Loops>") "42" None [].
Proof.
  apply (first_block_only demo_methods demo_unknown "ok " "#Log=a"
           " <Loops>#Log=b</Loops>" "42" None []); reflexivity.
Defined.

Lemma no_block_no_dispatch_witness :
  execute_anloop_sequence demo_methods demo_unknown "<Loops>#Log=a" "42" None []
  = (Ok ([], false), []).
Proof.
  apply (no_block_no_dispatch demo_methods demo_unknown "<Loops>#Log=a" "42" None []).
  right. apply find_None. reflexivity.
Defined.

End InterpreterMore.

(** ** More on the reply throttler and the send path *)
Module ThrottlerMore.
Import PyStr PyStrFacts QQBot.

#[local] Arguments String.append !_ _ / : simpl nomatch.

Lemma slice_to_from n s : slice_to n s ++ slice_from n s = s.
Proof.
  revert s. induction n as [|n IH]; intros [|c r]; simpl; try done.
  by rewrite IH.
Qed.

Lemma length_slice_from n s :
  String.length (slice_from n s) = (String.length s - n)%nat.
Proof. revert s. induction n as [|n IH]; intros [|c r]; simpl; try done; lia. Qed.

Lemma length_slice_to n s :
  String.length (slice_to n s) = Nat.min n (String.length s).
Proof.
  revert s. induction n as [|n IH]; intros [|c r]; simpl; try done.
  by rewrite IH.
Qed.

Lemma join_empty_cons p ps : join "" (p :: ps) = p ++ join "" ps.
Proof. destruct ps; simpl; [by rewrite append_nil_r|done]. Qed.

Lemma chunks_from_spec fuel n s :
  (0 < n)%nat -> (String.length s <= fuel)%nat ->
  join "" (chunks_from fuel n s) = s
  /\ Forall (fun c => (1 <= String.length c <= n)%nat) (chunks_from fuel n s).
Proof.
  intros Hn. revert s. induction fuel as [|fuel IH]; intros s Hlen.
  - destruct s; [done|simpl in Hlen; lia].
  - destruct s as [|c r]; [done|].
    cbn [chunks_from].
    destruct (IH (slice_from n (String c r))) as [Hjoin Hall].
    { rewrite length_slice_from. simpl in *. lia. }
    split.
    + rewrite join_empty_cons, Hjoin. apply slice_to_from.
    + constructor; [|done]. rewrite length_slice_to. simpl. lia.
Qed.

(** Cutting a long private message into parts loses nothing: the parts, put
    end to end, are the message, and each part has between one character and
    the maximum. *)
Theorem chunking_loses_nothing (n : nat) (content : string) :
  (0 < n)%nat ->
  join "" (chunks n content) = content
  /\ Forall (fun c => (1 <= String.length c <= n)%nat) (chunks n content).
Proof. intros Hn. by apply chunks_from_spec. Qed.

Lemma chunking_loses_nothing_witness :
  join "" (chunks 3 "abcdefgh") = "abcdefgh"
  /\ Forall (fun c => (1 <= String.length c <= 3)%nat) (chunks 3 "abcdefgh").
Proof. apply (chunking_loses_nothing 3 "abcdefgh"). lia. Defined.

Section Send.

Variable call_gemini_api : string -> string -> string -> option string.
Variable http_post : post -> post_outcome.

Abbreviation send := (send_message call_gemini_api http_post).
Abbreviation parts := (send_parts http_post).

Lemma send_parts_keeps_gate i ep tgt user_id group_id message_type content msgs t :
  last_group_reply_time (parts i ep tgt user_id group_id message_type content msgs t)
  = last_group_reply_time t
  /\ group_reply_buffers (parts i ep tgt user_id group_id message_type content msgs t)
     = group_reply_buffers t.
Proof.
  revert i t. induction msgs as [|m msgs IH]; intros i t; simpl; [done|].
  destruct (http_post _); [| |done].
  - destruct (Nat.eqb i 0);
      match goal with
      | |- context [parts ?j _ _ _ _ _ _ msgs ?u] => by destruct (IH j u) as [-> ->]
      end.
  - match goal with
    | |- context [parts ?j _ _ _ _ _ _ msgs ?u] => by destruct (IH j u) as [-> ->]
    end.
Qed.

(** What the loop does when no request raises: every part is requested, in
    order. *)
Lemma send_parts_no_raise i ep tgt user_id group_id message_type content msgs t :
  Forall (fun m => http_post (Post ep tgt m) ≠ PostRaised) msgs ->
  posts (parts i ep tgt user_id group_id message_type content msgs t)
  = (posts t ++ map (Post ep tgt) msgs)%list.
Proof.
  intros Hall. revert i t. induction Hall as [|m msgs Hm _ IH]; intros i t; simpl.
  - by rewrite app_nil_r.
  - destruct (http_post (Post ep tgt m)); [| |done].
    + destruct (Nat.eqb i 0); rewrite IH; simpl; by rewrite <- app_assoc.
    + rewrite IH. simpl. by rewrite <- app_assoc.
Qed.

(** The history gets one entry, the whole content, when the first part is
    accepted, and none otherwise. *)
Lemma send_parts_history i ep tgt user_id group_id message_type content msgs t :
  history (parts i ep tgt user_id group_id message_type content msgs t)
  = match msgs with
    | m :: _ =>
        if Nat.eqb i 0 then
          match http_post (Post ep tgt m) with
          | PostOk =>
              (history t ++ [HistoryEntry user_id message_type content group_id])%list
          | _ => history t
          end
        else history t
    | [] => history t
    end.
Proof.
  assert (Hlater : forall msgs j t,
             history (parts (S j) ep tgt user_id group_id message_type content msgs t)
             = history t).
  { clear. intros msgs. induction msgs as [|m msgs IH]; intros j t; simpl; [done|].
    destruct (http_post _); [| |done]; by rewrite IH. }
  destruct msgs as [|m msgs]; simpl; [done|].
  destruct i as [|i]; simpl.
  - destruct (http_post _); [| |done]; by rewrite Hlater.
  - destruct (http_post _); [| |done]; by rewrite Hlater.
Qed.

(** A request that raises ends the sending: the parts after it are never
    requested. *)
Theorem send_stops_at_failure (i : nat) (ep : string) (tgt : Z) (user_id : string)
    (group_id : option string) (message_type content : string)
    (sent : list string) (failed : string) (unsent : list string) (t : throttler) :
  Forall (fun m => http_post (Post ep tgt m) ≠ PostRaised) sent ->
  http_post (Post ep tgt failed) = PostRaised ->
  posts (parts i ep tgt user_id group_id message_type content
           (sent ++ failed :: unsent) t)
  = (posts t ++ map (Post ep tgt) (sent ++ [failed]))%list.
Proof.
  intros Hall Hfail. revert i t.
  induction Hall as [|m msgs Hm _ IH]; intros i t; simpl.
  - by rewrite Hfail.
  - destruct (http_post (Post ep tgt m)); [| |done].
    + destruct (Nat.eqb i 0); rewrite IH; simpl; by rewrite <- app_assoc.
    + rewrite IH. simpl. by rewrite <- app_assoc.
Qed.

(** A private message is sent whole: with a gateway that raises on no
    request, the requests are the parts of the content in order, none longer
    than the maximum, and the history gets the content once when the first
    part is accepted.  The gate is neither consulted nor changed. *)
Theorem private_send_whole (user_id content : string) (group_id at_user_id : option string)
    (now : Q) (t : throttler) (tgt : Z) :
  int user_id = Ok tgt ->
  (forall p, http_post p ≠ PostRaised) ->
  exists t' msgs,
    send user_id group_id "private" content at_user_id now t = Ok t'
    /\ join "" msgs = content
    /\ Forall (fun m => (String.length m <= MAX_MESSAGE_LENGTH_PRIVATE)%nat) msgs
    /\ posts t' = (posts t ++ map (Post "/send_private_msg" tgt) msgs)%list
    /\ (forall m rest, msgs = m :: rest ->
        http_post (Post "/send_private_msg" tgt m) = PostOk ->
        history t'
        = (history t ++ [HistoryEntry user_id "private" content group_id])%list)
    /\ last_group_reply_time t' = last_group_reply_time t
    /\ group_reply_buffers t' = group_reply_buffers t.
Proof.
  intros Hint Hok. unfold send_message. simpl. rewrite Hint. simpl.
  set (msgs := if (MAX_MESSAGE_LENGTH_PRIVATE <? String.length content)%nat
               then chunks MAX_MESSAGE_LENGTH_PRIVATE content else [content]).
  eexists. exists msgs. split; [reflexivity|].
  assert (Hmsgs : join "" msgs = content
                  /\ Forall (fun m => (String.length m <= MAX_MESSAGE_LENGTH_PRIVATE)%nat)
                            msgs).
  { unfold msgs. destruct (Nat.ltb_spec MAX_MESSAGE_LENGTH_PRIVATE (String.length content)).
    - destruct (chunks_from_spec (String.length content) MAX_MESSAGE_LENGTH_PRIVATE content)
        as [Hj Hall]; [unfold MAX_MESSAGE_LENGTH_PRIVATE; lia|done|].
      fold (chunks MAX_MESSAGE_LENGTH_PRIVATE content) in Hj, Hall.
      split; [done|]. eapply Forall_impl; [exact Hall|]. simpl. intros; lia.
    - split; [done|]. by constructor. }
  destruct Hmsgs as [Hjoin Hlen]. split; [done|]. split; [done|]. split.
  { apply send_parts_no_raise. apply Forall_forall. intros; apply Hok. }
  split.
  { intros m rest Hcons Hfirst. rewrite send_parts_history, Hcons. simpl.
    by rewrite Hfirst. }
  apply send_parts_keeps_gate.
Qed.

(** What a group send outside the cooldown window comes to, before the
    requests: the message left to send and the state of the gate. *)
Definition let_through (g content : string) (at_user_id : option string) (now : Q)
    (t : throttler) : string * throttler :=
  let direct :=
    match at_user_id with
    | Some u => if truthy u then "[CQ:at,qq=" ++ u ++ "] " ++ content else content
    | None => content
    end in
  match group_reply_buffers t !! g with
  | Some (b :: bs) =>
      (match call_gemini_api pro_model_name
               (summary_prompt (join newline ((b :: bs) ++ [content])))
               summary_system_instruction with
       | Some final_reply_content => final_reply_content
       | None => summary_failed
       end,
       Throttler (<[g := now]> (last_group_reply_time t))
                 (delete g (group_reply_buffers t)) (posts t) (history t))
  | _ =>
      (direct,
       Throttler (<[g := now]> (last_group_reply_time t))
                 (group_reply_buffers t) (posts t) (history t))
  end.

Lemma send_outside_cooldown user_id g content at_user_id now t n :
  truthy g = true -> int g = Ok n ->
  (GROUP_REPLY_COOLDOWN <= now - default 0 (last_group_reply_time t !! g))%Q ->
  send user_id (Some g) "group" content at_user_id now t
  = Ok (parts 0 "/send_group_msg" n user_id (Some g) "group" content
          [(let_through g content at_user_id now t).1]
          (let_through g content at_user_id now t).2).
Proof.
  intros Hg Hint Hcool. unfold send_message, let_through. simpl.
  rewrite Hg, Hint. simpl. unfold group_gate.
  destruct (Qlt_le_dec _ _) as [Hlt|_]; [lra|].
  destruct (group_reply_buffers t !! g) as [[|b bs]|]; simpl.
  - destruct at_user_id as [u|]; [destruct (truthy u)|]; done.
  - by destruct (call_gemini_api _ _ _).
  - destruct at_user_id as [u|]; [destruct (truthy u)|]; done.
Qed.

(** A group send outside the cooldown window with nothing pending goes out
    as it is, in one request, with the mention in front when one is asked
    for; the send time becomes the time of the call and the pending replies
    stay as they are.  The summarization is not consulted. *)
Theorem group_send_direct (user_id g content : string) (at_user_id : option string)
    (now : Q) (t : throttler) (n : Z) :
  truthy g = true -> int g = Ok n ->
  (GROUP_REPLY_COOLDOWN <= now - default 0 (last_group_reply_time t !! g))%Q ->
  group_reply_buffers t !! g = None \/ group_reply_buffers t !! g = Some [] ->
  let msg := match at_user_id with
             | Some u => if truthy u then "[CQ:at,qq=" ++ u ++ "] " ++ content else content
             | None => content
             end in
  exists t',
    send user_id (Some g) "group" content at_user_id now t = Ok t'
    /\ posts t' = (posts t ++ [Post "/send_group_msg" n msg])%list
    /\ last_group_reply_time t' = <[g := now]> (last_group_reply_time t)
    /\ group_reply_buffers t' = group_reply_buffers t.
Proof.
  intros Hg Hint Hcool Hempty msg.
  rewrite (send_outside_cooldown _ _ _ _ _ _ _ Hg Hint Hcool).
  eexists. split; [reflexivity|].
  assert (Hthrough : let_through g content at_user_id now t
                     = (msg, Throttler (<[g := now]> (last_group_reply_time t))
                                       (group_reply_buffers t) (posts t) (history t))).
  { unfold let_through. by destruct Hempty as [-> | ->]. }
  rewrite Hthrough. cbn [fst snd].
  split; [simpl; by destruct (http_post _)|].
  match goal with
  | |- context [parts 0 ?ep ?tgt ?u ?gid ?mt ?c ?msgs ?t0] =>
      destruct (send_parts_keeps_gate 0 ep tgt u gid mt c msgs t0) as [Hl Hb];
      by rewrite Hl, Hb
  end.
Qed.

(** When a merged reply goes out, the history records the content of the
    call that triggered it, not the summary that was sent nor the replies
    that were pending; and when the request fails, the pending replies are
    gone all the same and the send time is set. *)
Theorem merged_send_aftermath (user_id g content : string) (at_user_id : option string)
    (now : Q) (t : throttler) (n : Z) (b : string) (bs : list string) :
  truthy g = true -> int g = Ok n ->
  (GROUP_REPLY_COOLDOWN <= now - default 0 (last_group_reply_time t !! g))%Q ->
  group_reply_buffers t !! g = Some (b :: bs) ->
  exists t' merged,
    send user_id (Some g) "group" content at_user_id now t = Ok t'
    /\ posts t' = (posts t ++ [Post "/send_group_msg" n merged])%list
    /\ group_reply_buffers t' !! g = None
    /\ last_group_reply_time t' !! g = Some now
    /\ history t'
       = match http_post (Post "/send_group_msg" n merged) with
         | PostOk => (history t ++ [HistoryEntry user_id "group" content (Some g)])%list
         | _ => history t
         end.
Proof.
  intros Hg Hint Hcool Hbuf.
  rewrite (send_outside_cooldown _ _ _ _ _ _ _ Hg Hint Hcool).
  unfold let_through. rewrite Hbuf. cbn [fst snd].
  eexists. eexists. split; [reflexivity|].
  split; [simpl; by destruct (http_post _)|].
  match goal with
  | |- context [parts 0 ?ep ?tgt ?u ?gid ?mt ?c ?msgs ?t0] =>
      destruct (send_parts_keeps_gate 0 ep tgt u gid mt c msgs t0) as [Hl Hb];
      rewrite Hl, Hb, (send_parts_history 0 ep tgt u gid mt c msgs t0)
  end.
  simpl. split; [apply lookup_delete_eq|]. split; [apply lookup_insert_eq|done].
Qed.

End Send.

Import ThrottlerFacts.

Lemma send_stops_at_failure_witness :
  posts (send_parts (fun p => if String.eqb (message p) "b" then PostRaised else PostOk)
           0 "/send_private_msg" 2 "2" None "private" "abc" (["a"] ++ "b" :: ["c"])
           (Throttler ∅ ∅ [] []))
  = [Post "/send_private_msg" 2 "a"; Post "/send_private_msg" 2 "b"].
Proof.
  apply (send_stops_at_failure
           (fun p => if String.eqb (message p) "b" then PostRaised else PostOk)
           0 "/send_private_msg" 2 "2" None "private" "abc" ["a"] "b" ["c"]
           (Throttler ∅ ∅ [] [])).
  - constructor; [discriminate|constructor].
  - reflexivity.
Defined.

Lemma private_send_whole_witness :
  exists t' msgs,
    send_message summarizer_ok gateway_ok "2" None "private" "hello" None 100 one_pending
    = Ok t'
    /\ join "" msgs = "hello"
    /\ Forall (fun m => (String.length m <= MAX_MESSAGE_LENGTH_PRIVATE)%nat) msgs
    /\ posts t' = (posts one_pending ++ map (Post "/send_private_msg" 2) msgs)%list
    /\ (forall m rest, msgs = m :: rest ->
        gateway_ok (Post "/send_private_msg" 2 m) = PostOk ->
        history t'
        = (history one_pending ++ [HistoryEntry "2" "private" "hello" None])%list)
    /\ last_group_reply_time t' = last_group_reply_time one_pending
    /\ group_reply_buffers t' = group_reply_buffers one_pending.
Proof.
  apply (private_send_whole summarizer_ok gateway_ok "2" "hello" None None 100
           one_pending 2).
  - reflexivity.
  - discriminate.
Defined.

Lemma group_send_direct_witness :
  exists t',
    send_message summarizer_ok gateway_ok "1" (Some "2") "group" "hi" (Some "7") 100
                 (Throttler ∅ ∅ [] []) = Ok t'
    /\ posts t' = ([] ++ [Post "/send_group_msg" 2 "[CQ:at,qq=7] hi"])%list
    /\ last_group_reply_time t' = <[ "2" := 100%Q ]> ∅
    /\ group_reply_buffers t' = ∅.
Proof.
  apply (group_send_direct summarizer_ok gateway_ok "1" "2" "hi" (Some "7") 100
           (Throttler ∅ ∅ [] []) 2).
  - reflexivity.
  - reflexivity.
  - vm_compute. discriminate.
  - by left.
Defined.

Lemma merged_send_aftermath_witness :
  exists t' merged,
    send_message summarizer_ok gateway_ok "1" (Some "2") "group" "b" None 120 one_pending
    = Ok t'
    /\ posts t' = (posts one_pending ++ [Post "/send_group_msg" 2 merged])%list
    /\ group_reply_buffers t' !! "2" = None
    /\ last_group_reply_time t' !! "2" = Some 120%Q
    /\ history t'
       = match gateway_ok (Post "/send_group_msg" 2 merged) with
         | PostOk => (history one_pending ++ [HistoryEntry "1" "group" "b" (Some "2")])%list
         | _ => history one_pending
         end.
Proof.
  apply (merged_send_aftermath summarizer_ok gateway_ok "1" "2" "b" None 120
           one_pending 2 "a" []).
  - reflexivity.
  - reflexivity.
  - vm_compute. discriminate.
  - reflexivity.
Defined.

End ThrottlerMore.

(** ** More on the group message aggregator *)
Module AggregatorMore.
Import QQBot AggregatorFacts.

Section Aggregate.

Variable random_source : nat -> Z.

Abbreviation offer := (buffer_group_message random_source).
Abbreviation wake := (start_group_message_timer random_source).

(** What an offer does to the buffers and to the batches handed off. *)
Lemma offer_cases group_id msg a :
  let buf := (default [] (group_message_buffers a !! group_id) ++ [msg])%list in
  (group_message_buffers (offer group_id msg a) = delete group_id (group_message_buffers a)
   /\ handed_off (offer group_id msg a) = (handed_off a ++ [(group_id, buf)])%list
   /\ (5 <= length buf)%nat)
  \/ (group_message_buffers (offer group_id msg a)
      = <[group_id := buf]> (group_message_buffers a)
      /\ handed_off (offer group_id msg a) = handed_off a
      /\ (length buf <= 9)%nat).
Proof.
  intros buf. unfold buffer_group_message. fold buf.
  set (a1 := set_buffers (<[group_id:=buf]> (group_message_buffers a)) a).
  destruct (cancel_timer_fields group_id a1) as (Hb & Ht & Hr & Hh & Hl).
  set (a2 := cancel_timer group_id a1) in *.
  pose proof (randint_range random_source 0 GROUP_MESSAGE_BUFFER_THRESHOLD_RANDOM a2)
    as Hrange.
  destruct (randint random_source 0 GROUP_MESSAGE_BUFFER_THRESHOLD_RANDOM a2)
    as [r a3] eqn:Hrand.
  assert (Ha3 : a3 = Aggregator (group_message_buffers a2) (group_message_timers a2)
                                (tasks a2) (S (random_pos a2)) (handed_off a2))
    by (by inversion Hrand).
  simpl in Hrange. unfold GROUP_MESSAGE_BUFFER_THRESHOLD_RANDOM in Hrange.
  specialize (Hrange ltac:(lia)).
  unfold GROUP_MESSAGE_BUFFER_THRESHOLD_FIXED.
  assert (Hnonempty : buf ≠ []) by (unfold buf; by destruct (default [] _)).
  destruct (Z.leb_spec (5 + r) (Z.of_nat (length buf))) as [Hge|Hlt].
  - left. unfold process_buffered_group_messages.
    rewrite Ha3. simpl. rewrite Hb. unfold a1 at 1. simpl. rewrite lookup_insert_eq.
    destruct buf as [|m0 buf0] eqn:Hbuf; [done|]. simpl.
    rewrite Hh. unfold a1. simpl. rewrite delete_insert_eq.
    split; [done|]. split; [done|]. simpl in Hge. lia.
  - right. simpl. rewrite Ha3. simpl. rewrite Hb, Hh. unfold a1. simpl.
    split; [done|]. split; [done|]. lia.
Qed.

(** What a timer that wakes up does to them. *)
Lemma wake_cases tid group_id a :
  (group_message_buffers (wake tid group_id a) = group_message_buffers a
   /\ handed_off (wake tid group_id a) = handed_off a)
  \/ (exists buf,
        group_message_buffers a !! group_id = Some buf /\ (7 <= length buf)%nat
        /\ group_message_buffers (wake tid group_id a)
           = delete group_id (group_message_buffers a)
        /\ handed_off (wake tid group_id a) = (handed_off a ++ [(group_id, buf)])%list).
Proof.
  unfold start_group_message_timer.
  destruct (tasks a !! tid) as [[| |]|]; [|by left..].
  destruct (group_message_buffers a !! group_id) as [[|m0 buf0]|] eqn:Hbuf; [by left| |by left].
  pose proof (randint_range random_source 2 GROUP_MESSAGE_BUFFER_THRESHOLD_RANDOM a)
    as Hrange.
  cbn [randint fst snd] in *.
  unfold GROUP_MESSAGE_BUFFER_THRESHOLD_RANDOM, GROUP_MESSAGE_BUFFER_THRESHOLD_FIXED in *.
  specialize (Hrange ltac:(lia)).
  match goal with |- context [if ?c then _ else _] => destruct c eqn:Hcmp end.
  - apply Z.leb_le in Hcmp. right. exists (m0 :: buf0).
    unfold process_buffered_group_messages. simpl. rewrite Hbuf. simpl.
    split; [done|]. split; [simpl in Hcmp; lia|]. done.
  - by left.
Qed.

(** The states an aggregator that starts empty can get into. *)
Inductive attainable : aggregator -> Prop :=
| reach_idle a :
    group_message_buffers a = ∅ -> handed_off a = [] -> attainable a
| reach_offer group_id msg a :
    attainable a -> attainable (offer group_id msg a)
| reach_wake tid group_id a :
    attainable a -> attainable (wake tid group_id a).

(** Whatever the random source, a buffer holds between one and nine
    messages, and every batch handed off holds between five and ten. *)
Theorem buffers_and_batches_bounded (a : aggregator) :
  attainable a ->
  (forall g buf, group_message_buffers a !! g = Some buf -> (1 <= length buf <= 9)%nat)
  /\ (forall g batch, In (g, batch) (handed_off a) -> (5 <= length batch <= 10)%nat).
Proof.
  induction 1 as [a Hb Hh|group_id msg a _ [IHb IHh]|tid group_id a _ [IHb IHh]].
  - split.
    + intros g buf. by rewrite Hb, lookup_empty.
    + intros g batch. by rewrite Hh.
  - assert (Hlen : (1 <= length (default [] (group_message_buffers a !! group_id) ++ [msg])
                    <= 10)%nat).
    { rewrite length_app. simpl.
      destruct (group_message_buffers a !! group_id) as [old|] eqn:Hold; simpl; [|lia].
      specialize (IHb _ _ Hold). lia. }
    destruct (offer_cases group_id msg a) as [(Hb & Hh & Hfive)|(Hb & Hh & Hnine)];
      rewrite Hb, Hh; split.
    + intros g buf Hg. apply lookup_delete_Some in Hg as [_ Hg]. eauto.
    + intros g batch Hin. apply in_app_or in Hin as [Hin|[[= <- <-]|[]]]; [eauto|lia].
    + intros g buf Hg. destruct (decide (group_id = g)) as [->|Hne].
      * rewrite lookup_insert_eq in Hg. injection Hg as <-. lia.
      * rewrite lookup_insert_ne in Hg by done. eauto.
    + done.
  - destruct (wake_cases tid group_id a) as [[Hb Hh]|(buf & Hbuf & Hseven & Hb & Hh)];
      rewrite Hb, Hh; [done|]. split.
    + intros g buf' Hg. apply lookup_delete_Some in Hg as [_ Hg]. eauto.
    + intros g batch Hin. apply in_app_or in Hin as [Hin|[[= <- <-]|[]]]; [eauto|].
      specialize (IHb _ _ Hbuf). lia.
Qed.

(** Fewer than five messages are never handed off, neither when they
    arrive nor by a timer, whatever the random source: they stay in the
    buffer in the order they came. *)
Theorem small_groups_wait (group_id : string) (msgs : list msg_event) (tid : nat)
    (a : aggregator) :
  msgs ≠ [] ->
  (length (default [] (group_message_buffers a !! group_id)) + length msgs <= 4)%nat ->
  let a' := foldl (fun a m => offer group_id m a) a msgs in
  group_message_buffers a' !! group_id
  = Some (default [] (group_message_buffers a !! group_id) ++ msgs)%list
  /\ handed_off a' = handed_off a
  /\ group_message_buffers (wake tid group_id a') = group_message_buffers a'
  /\ handed_off (wake tid group_id a') = handed_off a'.
Proof.
  intros Hne Hlen a'.
  assert (Hfold : forall msgs a,
             msgs ≠ [] ->
             (length (default [] (group_message_buffers a !! group_id)) + length msgs
              <= 4)%nat ->
             group_message_buffers (foldl (fun a m => offer group_id m a) a msgs) !! group_id
             = Some (default [] (group_message_buffers a !! group_id) ++ msgs)%list
             /\ handed_off (foldl (fun a m => offer group_id m a) a msgs) = handed_off a).
  { clear. intros msgs. induction msgs as [|m msgs IH]; intros a Hne Hlen; [done|].
    simpl in *.
    destruct (offer_cases group_id m a) as [(_ & _ & Hfive)|(Hb & Hh & _)].
    { rewrite length_app in Hfive. simpl in Hfive. lia. }
    assert (Hnow : group_message_buffers (offer group_id m a) !! group_id
                   = Some (default [] (group_message_buffers a !! group_id) ++ [m])%list)
      by (by rewrite Hb, lookup_insert_eq).
    destruct msgs as [|m' msgs'].
    - simpl. by rewrite Hnow, Hh.
    - destruct (IH (offer group_id m a)) as [IHb IHh]; [done| |].
      + rewrite Hnow. simpl. rewrite length_app. simpl in *. lia.
      + rewrite IHb, IHh, Hnow, Hh. simpl. by rewrite <- app_assoc. }
  destruct (Hfold msgs a Hne Hlen) as [Hb Hh]. fold a' in Hb, Hh.
  split; [done|]. split; [done|].
  destruct (wake_cases tid group_id a') as [[Hb' Hh']|(buf & Hbuf & Hseven & _)]; [done|].
  rewrite Hb in Hbuf. injection Hbuf as <-. rewrite length_app in Hseven. lia.
Qed.

End Aggregate.

Lemma buffers_and_batches_bounded_witness :
  Forall (fun gb : string * list msg_event => (5 <= length gb.2 <= 10)%nat)
         (handed_off (foldl (fun a n => buffer_group_message (fun _ => 0) "7" (hello n) a)
                            idle [1; 2; 3; 4; 5])).
Proof.
  apply Forall_forall. intros [g batch] Hin. apply list_elem_of_In in Hin. revert Hin.
  apply (buffers_and_batches_bounded (fun _ => 0)).
  simpl. do 5 apply reach_offer. by apply reach_idle.
Defined.

Lemma small_groups_wait_witness :
  group_message_buffers
    (foldl (fun a m => buffer_group_message (fun _ => 5) "7" m a) idle [hello 1; hello 2])
    !! "7"
  = Some [hello 1; hello 2].
Proof.
  apply (small_groups_wait (fun _ => 5) "7" [hello 1; hello 2] O idle).
  - discriminate.
  - vm_compute. lia.
Defined.

End AggregatorMore.

(** ** The record of processed messages *)
Module EventsFacts.
Import Events.

Definition note_all (later : list (option Z)) (ids : list (option Z)) : list (option Z) :=
  foldl (fun d y => (note_message y d).2) ids later.

Lemma note_message_length y d :
  (length d <= PROCESSED_IDS_MAXLEN)%nat ->
  (length (note_message y d).2 <= PROCESSED_IDS_MAXLEN)%nat.
Proof.
  intros Hlen. unfold note_message, deque_append, PROCESSED_IDS_MAXLEN in *.
  case_bool_decide; cbn [snd]; [done|].
  destruct (Nat.leb_spec 200 (length d)); rewrite length_app; cbn [length].
  - rewrite length_drop. lia.
  - lia.
Qed.

(** An id that stands in the record with at most [k] ids after it is still
    there after [n] more events, as long as [k + n] stays below the bound. *)
Lemma note_all_keeps x later : forall d pre post,
  d = (pre ++ x :: post)%list ->
  (length d <= PROCESSED_IDS_MAXLEN)%nat ->
  (length post + length later < PROCESSED_IDS_MAXLEN)%nat ->
  x ∈ note_all later d.
Proof.
  induction later as [|y later IH]; intros d pre post Hd Hlen Hroom.
  - unfold note_all. cbn [foldl]. rewrite Hd. set_solver.
  - unfold note_all. cbn [foldl]. fold (note_all later (note_message y d).2).
    cbn [length] in Hroom.
    assert (Hnext : exists pre', (note_message y d).2 = (pre' ++ x :: (post ++ [y]))%list
                                 \/ (note_message y d).2 = (pre' ++ x :: post)%list).
    { unfold note_message, deque_append.
      case_bool_decide; cbn [snd]; [exists pre; by right|].
      destruct (Nat.leb_spec PROCESSED_IDS_MAXLEN (length d)) as [Hfull|Hfree].
      - destruct pre as [|p pre].
        + rewrite Hd in Hfull. cbn [app length] in Hfull. lia.
        + exists pre. left. rewrite Hd. cbn [app drop]. rewrite drop_0.
          by rewrite <- app_assoc.
      - exists pre. left. rewrite Hd. by rewrite <- app_assoc. }
    destruct Hnext as [pre' [Hnext|Hnext]].
    + apply (IH _ pre' (post ++ [y])%list Hnext).
      * by apply note_message_length.
      * rewrite length_app. cbn [length]. lia.
    + apply (IH _ pre' post Hnext).
      * by apply note_message_length.
      * lia.
Qed.

(** A message that has been handled is ignored when it is delivered again
    within the next 199 events, whatever their ids. *)
Theorem redelivery_ignored (x : option Z) (ids later : list (option Z)) :
  (length ids <= PROCESSED_IDS_MAXLEN)%nat ->
  (note_message x ids).1 = true ->
  (length later <= 199)%nat ->
  (note_message x (note_all later (note_message x ids).2)).1 = false.
Proof.
  intros Hlen Hnew Hlater.
  assert (Hin : x ∈ note_all later (note_message x ids).2).
  { unfold note_message in Hnew |- *. case_bool_decide; [done|]. simpl.
    assert (Hx : exists pre, deque_append PROCESSED_IDS_MAXLEN x ids = (pre ++ x :: [])%list).
    { unfold deque_append. destruct (_ <=? _)%nat; eauto. }
    destruct Hx as [pre Hx].
    apply (note_all_keeps x later _ pre [] Hx).
    - pose proof (note_message_length x ids Hlen) as Hl.
      unfold note_message in Hl. by rewrite bool_decide_eq_false_2 in Hl.
    - unfold PROCESSED_IDS_MAXLEN. simpl. lia. }
  unfold note_message. by rewrite bool_decide_eq_true_2.
Qed.

Lemma redelivery_ignored_witness :
  (note_message (Some 7) (note_all [Some 8; None; Some 9] (note_message (Some 7) []).2)).1
  = false.
Proof.
  apply (redelivery_ignored (Some 7) [] [Some 8; None; Some 9]).
  - unfold PROCESSED_IDS_MAXLEN. simpl. lia.
  - reflexivity.
  - simpl. lia.
Defined.

(** The record a bot that starts with none can hold. *)
Inductive recorded : list (option Z) -> Prop :=
| recorded_nil : recorded []
| recorded_note y d : recorded d -> recorded (note_message y d).2.

(** The record never holds more than 200 ids and never the same id twice;
    once it is full, a new id pushes out the oldest, which is then handled
    again when it comes back. *)
Theorem record_bounded (d : list (option Z)) :
  recorded d ->
  (length d <= PROCESSED_IDS_MAXLEN)%nat
  /\ NoDup d
  /\ (forall oldest rest y,
        d = oldest :: rest -> length d = PROCESSED_IDS_MAXLEN -> y ∉ d ->
        (note_message y d).2 = (rest ++ [y])%list
        /\ (note_message oldest (note_message y d).2).1 = true).
Proof.
  intros Hrec.
  assert (Hinv : (length d <= PROCESSED_IDS_MAXLEN)%nat /\ NoDup d).
  { induction Hrec as [|y d _ [IHlen IHnd]].
    - split; [unfold PROCESSED_IDS_MAXLEN; simpl; lia|constructor].
    - split; [by apply note_message_length|].
      unfold note_message, deque_append. case_bool_decide as Hy; cbn [snd]; [done|].
      destruct (PROCESSED_IDS_MAXLEN <=? length d)%nat.
      + apply NoDup_app. split; [|split].
        * destruct d; [constructor|]. cbn [drop]. rewrite drop_0. by inversion IHnd.
        * intros z Hz Hzy. apply list_elem_of_singleton in Hzy as ->.
          apply Hy. destruct d; [done|]. cbn [drop] in Hz. rewrite drop_0 in Hz.
          set_solver.
        * apply NoDup_singleton.
      + apply NoDup_app. split; [done|]. split; [|apply NoDup_singleton].
        intros z Hz Hzy. apply list_elem_of_singleton in Hzy as ->. done. }
  destruct Hinv as [Hlen Hnd]. split; [done|]. split; [done|].
  intros oldest rest y -> Hfull Hy.
  assert (Hnote : (note_message y (oldest :: rest)).2 = (rest ++ [y])%list).
  { unfold note_message, deque_append. rewrite bool_decide_eq_false_2 by done.
    cbn [snd]. rewrite Hfull. rewrite Nat.leb_refl. cbn [drop]. by rewrite drop_0. }
  split; [done|]. rewrite Hnote. unfold note_message.
  rewrite bool_decide_eq_false_2; [done|].
  apply NoDup_cons in Hnd as [Hnotin _].
  intros [Hin|Hin]%elem_of_app; [done|].
  apply list_elem_of_singleton in Hin as ->. apply Hy. constructor.
Qed.

Lemma recorded_note_all later : forall d, recorded d -> recorded (note_all later d).
Proof.
  induction later as [|y later IH]; intros d Hd; unfold note_all; cbn [foldl]; [done|].
  apply IH. by apply recorded_note.
Qed.

Definition three_events : list (option Z) := [Some 1; Some 1; Some 2].

Lemma record_bounded_witness :
  (length (note_all three_events []) <= PROCESSED_IDS_MAXLEN)%nat
  /\ NoDup (note_all three_events []).
Proof.
  destruct (record_bounded (note_all three_events [])) as (Hl & Hn & _).
  - apply recorded_note_all. apply recorded_nil.
  - split; [exact Hl|exact Hn].
Defined.

End EventsFacts.

(** ** More on the watchdog *)
Module SchedulerMore.
Import Scheduler.

Definition fresh : scheduler := Sched 0 true ∅ (Some O) ∅ [].

(** A restart whose [start()] fails is tried again at the next poll: with
    no heartbeat in between, the baseline stays where it was, the next poll
    comes 13 seconds after this one and runs the cycle again. *)
Theorem failed_restart_retried (start_ok : nat -> bool) (m : monitor) :
  (heartbeat_timeout < clock m - last_heartbeat_time (self m))%Q ->
  start_ok (starts_so_far (self m)) = false ->
  Forall (fun h => (clock m + 13 < h)%Q) (heartbeats m) ->
  let m1 := monitor_round start_ok m in
  (clock m1 == clock m + 13)%Q
  /\ last_heartbeat_time (self m1) = last_heartbeat_time (self m)
  /\ process_calls (self (monitor_round start_ok m1))
     = (process_calls (self m) ++ [PmStop; PmStart; PmStop; PmStart])%list.
Proof.
  intros Hgap Hfail Hquiet m1.
  assert (Hahead : Watchdog.ahead m).
  { eapply Forall_impl; [exact Hquiet|]. simpl. intros h Hh. lra. }
  assert (Hm1 : m1 = Monitor (call_process_manager PmStart
                                (call_process_manager PmStop (self m)))
                             (clock m + 3 + 10) (heartbeats m)).
  { unfold m1, monitor_round.
    destruct (Qlt_le_dec _ _) as [_|Hle]; [|lra].
    assert (H3 : sleep 3 (on_self (call_process_manager PmStop) m)
                 = Monitor (call_process_manager PmStop (self m)) (clock m + 3)
                           (heartbeats m)).
    { unfold sleep, on_self. cbn [clock heartbeats self].
      rewrite Watchdog.deliver_none_due; [done|].
      eapply Forall_impl; [exact Hquiet|]. simpl. intros h Hh. lra. }
    rewrite H3. cbn [self]. rewrite Watchdog.starts_so_far_stop, Hfail.
    unfold sleep, on_self. cbn [clock heartbeats self].
    rewrite Watchdog.deliver_none_due; [done|].
    eapply Forall_impl; [exact Hquiet|]. simpl. intros h Hh. lra. }
  assert (Hclock : (clock m1 == clock m + 13)%Q).
  { rewrite Hm1. cbn [clock]. ring. }
  assert (Hlast : last_heartbeat_time (self m1) = last_heartbeat_time (self m)).
  { by rewrite Hm1. }
  split; [done|]. split; [done|].
  destruct (Watchdog.monitor_round_restart start_ok m1) as (Hcalls & _).
  - rewrite Hm1. unfold Watchdog.ahead. cbn [clock heartbeats].
    eapply Forall_impl; [exact Hquiet|]. simpl. intros h Hh. lra.
  - rewrite Hlast, Hclock. unfold heartbeat_timeout in *. lra.
  - rewrite Hcalls, Hm1. cbn [self call_process_manager process_calls].
    by rewrite <- !app_assoc.
Qed.

Lemma failed_restart_retried_witness :
  process_calls
    (self (monitor_round (fun _ => false)
             (monitor_round (fun _ => false) (Monitor fresh 101 []))))
  = [PmStop; PmStart; PmStop; PmStart].
Proof.
  apply (failed_restart_retried (fun _ => false) (Monitor fresh 101 [])).
  - vm_compute. reflexivity.
  - reflexivity.
  - constructor.
Defined.

End SchedulerMore.

(** ** The scheduling tools, from the dispatcher to the job store *)
Module ToolsFacts.
Import Scheduler Interpreter Tools.

Section Methods.

Variable strptime : string -> option Z.
Variable strftime : Z -> string.
Variable others : string -> option (@tool_method scheduler).







End Methods.







End ToolsFacts.

(** ** What a call of a sequence can carry *)
Module SegmentFacts.
Import PyStr PyStrFacts Interpreter.

#[local] Arguments String.append !_ _ / : simpl nomatch.

Lemma split_pieces_no_sep sep s :
  Forall (fun p => mem_char sep p = false) (split sep s).
Proof.
  induction s as [|c r IH]; cbn [split].
  - by constructor.
  - destruct (Ascii.eqb c sep) eqn:Hc.
    + by constructor.
    + destruct (split sep r) as [|p ps] eqn:Hs; [by apply split_nonempty in Hs|].
      apply Forall_cons in IH as [Hp Hps]. constructor; [|done].
      cbn [mem_char]. rewrite Hp, orb_false_r.
      rewrite Ascii.eqb_sym. exact Hc.
Qed.

(** The calls a sequence is split into hold no [;]. *)
Lemma segment_no_separator loop_content seg :
  seg ∈ tool_calls_str loop_content -> mem_char ";" seg = false.
Proof.
  unfold tool_calls_str. intros Hin.
  apply list_elem_of_fmap in Hin as (tc & -> & Htc).
  apply list_elem_of_In, List.filter_In in Htc as [Htc _].
  apply (mem_char_occurs ";" (strip tc) tc (strip_occurs tc)).
  pose proof (split_pieces_no_sep ";" loop_content) as Hall.
  rewrite Forall_forall in Hall. apply Hall. by apply list_elem_of_In.
Qed.

(** The two clean-up steps at the end of [_parse_tool_call] keep a
    dictionary of at most one parameter at most that large. *)
Lemma cleanup_size (ps : params) (two_parts : bool) (p1 : pyres string) (k : string) :
  (two_parts = true -> exists x, p1 = Ok x) ->
  (size ps <= 1)%nat ->
  exists ps',
    (ps ← (if bool_decide (is_Some (ps !! "content")) && not_get "content" ps
           then del "content" ps else Ok ps);
     ps ← (if bool_decide (ps = ∅) && two_parts then
             p1 ← p1; Ok (<["query" := p1]> ps)
           else Ok ps);
     Ok (k, ps)) = Ok (k, ps')
    /\ (size ps' <= 1)%nat.
Proof.
  intros Hp1 Hsize.
  assert (Hfirst : exists ps1,
            (if bool_decide (is_Some (ps !! "content")) && not_get "content" ps
             then del "content" ps else Ok ps) = Ok ps1 /\ (size ps1 <= 1)%nat).
  { destruct (bool_decide (is_Some (ps !! "content")) && not_get "content" ps) eqn:Hc.
    - apply andb_true_iff in Hc as [Hc _]. apply bool_decide_eq_true_1 in Hc as [v Hv].
      unfold del. rewrite Hv. eexists. split; [done|].
      rewrite map_size_delete, Hv. lia.
    - by exists ps. }
  destruct Hfirst as (ps1 & -> & Hsize1). cbn [mbind pyres_bind].
  destruct (bool_decide (ps1 = ∅) && two_parts) eqn:Hq.
  - apply andb_true_iff in Hq as [Hq Htwo]. apply bool_decide_eq_true_1 in Hq as ->.
    destruct (Hp1 Htwo) as [x ->].
    cbn [mbind pyres_bind]. eexists. split; [done|].
    rewrite insert_empty, map_size_singleton. lia.
  - cbn [mbind pyres_bind]. by exists ps1.
Qed.

(** A call of a sequence is parsed to at most one parameter, whatever its
    text: the [;] that would separate a second one has already ended the
    call, so the further [key=value] pairs of a documented form never reach
    the tool. *)
Theorem segments_carry_one_parameter (anloop_string seg : string) :
  seg ∈ call_segments anloop_string ->
  mem_char ";" seg = false
  /\ exists name ps, parse_tool_call seg = Ok (name, ps) /\ (size ps <= 1)%nat.
Proof.
  intros Hin.
  assert (Hsep : mem_char ";" seg = false).
  { unfold call_segments in Hin.
    destruct (loop_content_of anloop_string) as [[flag content]|];
      [by apply (segment_no_separator content)|by apply elem_of_nil in Hin]. }
  split; [done|].
  pose proof (mem_char_occurs ";" (strip seg) seg (strip_occurs seg) Hsep) as Hstrip.
  unfold parse_tool_call.
  destruct (split1_cases "=" (strip seg))
    as [[_ Hparts]|(key & v & _ & Hparts & Heq & _)]; rewrite Hparts.
  - cbn [index lookup list_lookup mbind pyres_bind length Nat.ltb Nat.leb].
    destruct (cleanup_size ∅ false (Raise IndexError) (slice_from 1 (strip seg)))
      as (ps' & Hclean & Hsize); [done|rewrite map_size_empty; lia|].
    exists (slice_from 1 (strip seg)), ps'. split; [|done]. exact Hclean.
  - cbn [index lookup list_lookup mbind pyres_bind length Nat.ltb Nat.leb].
    assert (Hv : mem_char ";" v = false).
    { rewrite Heq in Hstrip. rewrite mem_char_app in Hstrip.
      apply orb_false_iff in Hstrip as [_ Hstrip]. cbn [mem_char] in Hstrip.
      by apply orb_false_iff in Hstrip as [_ Hstrip]. }
    rewrite (PyStrMore.mem_char_false_split ";" v Hv).
    assert (Hpair : exists ps0, parse_pairs 0 [v] ∅ = Ok ps0 /\ (size ps0 <= 1)%nat).
    { cbn [parse_pairs]. unfold parse_pair. cbn [Nat.eqb].
      destruct (mem_char "=" v) eqn:Hmem.
      - destruct (split1_cases "=" v) as [[Hno _]|(k2 & v2 & _ & Hsp & _)]; [congruence|].
        rewrite Hsp. cbn [mbind pyres_bind parse_pairs]. eexists. split; [done|].
        rewrite insert_empty, map_size_singleton. lia.
      - cbn [mbind pyres_bind parse_pairs]. eexists. split; [done|].
        rewrite insert_empty, map_size_singleton. lia. }
    destruct Hpair as (ps0 & -> & Hsize0). cbn [mbind pyres_bind].
    destruct (cleanup_size ps0 true (Ok v) (slice_from 1 key)) as (ps' & Hclean & Hsize);
      [eauto|done|].
    exists (slice_from 1 key), ps'. split; [|done]. exact Hclean.
Qed.

Lemma segments_carry_one_parameter_witness :
  call_segments "<Loops>#AtUser=10001;content=hi;group_id=7</Loops>" = ["#AtUser=10001"]
  /\ exists name ps, parse_tool_call "#AtUser=10001" = Ok (name, ps) /\ (size ps <= 1)%nat.
Proof.
  assert (Hsegs : call_segments "<Loops>#AtUser=10001;content=hi;group_id=7</Loops>"
                  = ["#AtUser=10001"]) by (vm_compute; reflexivity).
  split; [exact Hsegs|].
  apply (segments_carry_one_parameter
           "<Loops>#AtUser=10001;content=hi;group_id=7</Loops>" "#AtUser=10001").
  rewrite Hsegs. constructor.
Defined.

End SegmentFacts.

(** ** Retrying the model call over the keys *)
Module InferenceFacts.
Import Inference.

Section Gemini.

Variable n : nat.
Variable generate_content : nat -> nat -> option string.

(** [k] failed attempts move the loop [k] attempts and [k] keys on. *)
Lemma attempts_skip k : forall todo i idx,
  (idx < n)%nat ->
  (forall j, (j < k)%nat -> generate_content (i + j)%nat ((idx + j) mod n)%nat = None) ->
  attempts n generate_content (k + todo) i idx
  = attempts n generate_content todo (i + k) ((idx + k) mod n)%nat.
Proof.
  induction k as [|k IH]; intros todo i idx Hidx Hfail.
  - by rewrite !Nat.add_0_r, Nat.mod_small.
  - cbn [Nat.add attempts].
    pose proof (Hfail O ltac:(lia)) as H0.
    rewrite !Nat.add_0_r, Nat.mod_small in H0 by done. rewrite H0.
    unfold rotate_api_key. rewrite IH.
    + rewrite Nat.Div0.add_mod_idemp_l.
      by replace (S i + k)%nat with (i + S k)%nat by lia;
         replace (idx + 1 + k)%nat with (idx + S k)%nat by lia.
    + apply Nat.mod_upper_bound. lia.
    + intros j Hj. rewrite Nat.Div0.add_mod_idemp_l.
      replace (S i + j)%nat with (i + S j)%nat by lia.
      replace (idx + 1 + j)%nat with (idx + S j)%nat by lia.
      apply Hfail. lia.
Qed.

(** A call goes round the keys twice, starting from the current one, each
    attempt with the key after the one that failed.  The first attempt that
    gets a text ends the call, with the text stripped, and its key stays the
    current one; when all [2n] attempts fail the call raises, and the
    current key is the one it started from.  Every key is reached within the
    first [n] attempts. *)
Theorem gemini_retry_schedule (idx : nat) :
  (idx < n)%nat ->
  (forall k text,
      (k < n * 2)%nat ->
      (forall j, (j < k)%nat -> generate_content j ((idx + j) mod n)%nat = None) ->
      generate_content k ((idx + k) mod n)%nat = Some text ->
      call_gemini_api n generate_content idx
      = (Some (PyStr.strip text), ((idx + k) mod n)%nat))
  /\ ((forall j, (j < n * 2)%nat -> generate_content j ((idx + j) mod n)%nat = None) ->
      call_gemini_api n generate_content idx = (None, idx))
  /\ (forall key, (key < n)%nat -> exists j, (j < n)%nat /\ ((idx + j) mod n)%nat = key).
Proof.
  intros Hidx. split; [|split].
  - intros k text Hk Hfail Hok. unfold call_gemini_api.
    replace (n * 2)%nat with (k + S (n * 2 - S k))%nat by lia.
    rewrite attempts_skip; [|done|exact Hfail].
    cbn [attempts Nat.add]. by rewrite Hok.
  - intros Hfail. unfold call_gemini_api.
    replace (n * 2)%nat with (n * 2 + 0)%nat at 1 by lia.
    rewrite attempts_skip; [|done|exact Hfail].
    cbn [attempts]. f_equal.
    replace (idx + n * 2)%nat with (idx + 2 * n)%nat by lia.
    rewrite Nat.Div0.mod_add. by apply Nat.mod_small.
  - intros key Hkey. exists ((key + n - idx) mod n)%nat. split.
    + apply Nat.mod_upper_bound. lia.
    + rewrite Nat.Div0.add_mod_idemp_r.
      replace (idx + (key + n - idx))%nat with (key + 1 * n)%nat by lia.
      rewrite Nat.Div0.mod_add. by apply Nat.mod_small.
Qed.

End Gemini.

(** Two keys; the third attempt is answered. *)
Definition third_time_lucky (i key : nat) : option string :=
  if (i =? 2)%nat then Some " hi " else None.

Lemma gemini_retry_schedule_witness :
  call_gemini_api 2 third_time_lucky 1 = (Some "hi", 1%nat).
Proof.
  destruct (gemini_retry_schedule 2 third_time_lucky 1 ltac:(lia)) as (Hfirst & _).
  apply (Hfirst 2%nat " hi ").
  - lia.
  - intros j Hj. destruct j as [|[|j]]; [reflexivity|reflexivity|lia].
  - reflexivity.
Defined.

End InferenceFacts.

(** ** From the model's answer to the reply *)
Module DecisionFacts.
Import PyStr PyStrFacts PyStrMore Interpreter Decision.

#[local] Arguments String.append !_ _ / : simpl nomatch.

Lemma length_append (a b : string) :
  String.length (a ++ b) = (String.length a + String.length b)%nat.
Proof. induction a as [|x a IH]; simpl; [done|by rewrite IH]. Qed.

Lemma startswith_app t p q : startswith t p = true -> startswith t (p ++ q) = true.
Proof.
  intros [b ->]%startswith_spec. apply startswith_spec. exists (b ++ q).
  by rewrite append_assoc.
Qed.

Lemma startswith_within t : forall p q,
  startswith t (p ++ q) = true -> (String.length t <= String.length p)%nat ->
  startswith t p = true.
Proof.
  induction t as [|x t IH]; intros p q Hst Hlen; [done|].
  destruct p as [|y p]; [simpl in Hlen; lia|].
  cbn [String.append startswith] in *. apply andb_true_iff in Hst as [-> Hst].
  apply (IH p q Hst). simpl in Hlen. lia.
Qed.

(** Where a text is found, it stands. *)
Lemma find_split t : forall s j,
  find t s = Some j ->
  s = slice_to j s ++ t ++ slice_from (j + String.length t) s
  /\ String.length (slice_to j s) = j.
Proof.
  assert (Hhere : forall s, startswith t s = true ->
            s = slice_to 0 s ++ t ++ slice_from (0 + String.length t) s
            /\ String.length (slice_to 0 s) = O).
  { intros s [b ->]%startswith_spec. split; [|by destruct (t ++ b)].
    change (0 + String.length t)%nat with (String.length t).
    rewrite slice_from_append. by destruct (t ++ b). }
  induction s as [|c r IH]; intros j; simpl.
  - destruct (startswith t "") eqn:Hst; [|done]. intros [= <-]. by apply Hhere.
  - destruct (startswith t (String c r)) eqn:Hst.
    + intros [= <-]. by apply Hhere.
    + destruct (find t r) as [j'|] eqn:Hj; [|done]. intros [= <-].
      destruct (IH j' eq_refl) as [Hr Hlen].
      cbn [slice_to slice_from Nat.add String.append String.length].
      rewrite Hlen. by rewrite <- Hr.
Qed.

(** The first place a text is found at is the first also in a beginning of
    the string that holds it. *)
Lemma find_within t : forall p q j,
  find t (p ++ q) = Some j -> (j + String.length t <= String.length p)%nat ->
  find t p = Some j.
Proof.
  induction p as [|c p IH]; intros q j Hfind Hlen.
  - simpl in Hlen. assert (j = O) as -> by lia. assert (Ht : t = "").
    { destruct t; [done|simpl in Hlen; lia]. }
    by rewrite Ht.
  - cbn [String.append] in Hfind. simpl in Hfind.
    destruct (startswith t (String c (p ++ q))) eqn:Hst.
    + injection Hfind as <-. apply find_startswith.
      apply (startswith_within t (String c p) q); [exact Hst|simpl in *; lia].
    + destruct (find t (p ++ q)) as [j'|] eqn:Hj; [|done]. injection Hfind as <-.
      simpl. destruct (startswith t (String c p)) eqn:Hst'.
      * apply (startswith_app t (String c p) q) in Hst'.
        cbn [String.append] in Hst'. congruence.
      * rewrite (IH q j' Hj); [done|simpl in Hlen; lia].
Qed.

(** The fuel [replace] gives its loop is enough: more changes nothing. *)
Lemma replace_fuel_enough old new :
  old <> "" ->
  forall f1 f2 s, (String.length s < f1)%nat -> (String.length s < f2)%nat ->
    replace_fuel f1 old new s = replace_fuel f2 old new s.
Proof.
  intros Hold. induction f1 as [|f1 IH]; intros f2 s H1 H2; [lia|].
  destruct f2 as [|f2]; [lia|]. cbn [replace_fuel].
  destruct (startswith old s) eqn:Hst.
  - f_equal. apply startswith_spec in Hst as [b ->].
    assert (0 < String.length old)%nat by (destruct old; [done|simpl; lia]).
    rewrite length_append in H1, H2.
    apply IH; rewrite ThrottlerMore.length_slice_from, length_append; lia.
  - destruct s as [|c r]; [done|]. simpl in H1, H2. f_equal. apply IH; lia.
Qed.

(** The block [make_decision] cuts out of the answer and hands to the
    interpreter is found there again, with the same content. *)
Lemma search_loops_again s g1 :
  search_loops s = Some g1 -> search_loops ("<Loops>" ++ g1 ++ "</Loops>") = Some g1.
Proof.
  unfold search_loops at 1.
  destruct (find "<Loops>" s) as [i|]; [|done].
  destruct (find "</Loops>" (slice_from (i + 7) s)) as [j|] eqn:Hclose; [|done].
  intros [= <-].
  destruct (find_split _ _ _ Hclose) as [Hrest Hlen].
  set (rest := slice_from (i + 7) s) in *. set (g1 := slice_to j rest) in *.
  assert (Hfind : find "</Loops>" (g1 ++ "</Loops>") = Some (String.length g1)).
  { apply (find_within "</Loops>" (g1 ++ "</Loops>")
             (slice_from (j + String.length "</Loops>") rest)).
    - rewrite append_assoc, <- Hrest, Hlen. exact Hclose.
    - rewrite length_append. lia. }
  unfold search_loops.
  rewrite (find_startswith "<Loops>" ("<Loops>" ++ g1 ++ "</Loops>"))
    by (apply startswith_spec; eauto).
  change (slice_from (0 + 7) ("<Loops>" ++ g1 ++ "</Loops>")) with (g1 ++ "</Loops>").
  rewrite Hfind. by rewrite slice_to_append.
Qed.

Section Decide.

Context {W : Type}.
Variable methods : string -> option (@tool_method W).
Variable execute_unknown : @tool_method W.

Abbreviation execute := (execute_anloop_sequence methods execute_unknown).
Abbreviation decide := (make_decision_pro methods execute_unknown).

(** What the interpreter makes of the block that was cut out. *)
Lemma execute_block s g1 user_id group_id (w : W) :
  search_loops s = Some g1 ->
  exists results,
    execute ("<Loops>" ++ g1 ++ "</Loops>") user_id group_id w
    = (Ok (results, startswith "#NotResp" (strip g1)),
       (execute ("<Loops>" ++ g1 ++ "</Loops>") user_id group_id w).2).
Proof.
  intros Hs.
  destruct (InterpreterFacts.execute_anloop_sequence_flag methods execute_unknown
              ("<Loops>" ++ g1 ++ "</Loops>") user_id group_id w
              (startswith "#NotResp" (strip g1)) (strip_not_resp (strip g1)).2)
    as (results & w' & Hexec).
  - unfold loop_content_of. rewrite (search_loops_again s g1 Hs). cbn [fmap option_fmap option_map compose].
    unfold strip_not_resp. by destruct (startswith "#NotResp" (strip g1)).
  - exists results. by rewrite Hexec.
Qed.

(** An answer whose first block begins with [#NotResp] gets no reply,
    whatever text the model wrote around the block: the block is executed,
    the decision is a background one and [handle_message] returns
    nothing. *)
Theorem background_sequence_is_silent (response_text g1 user_id session_id : string) (w : W) :
  search_loops response_text = Some g1 ->
  startswith "#NotResp" (strip g1) = true ->
  exists text,
    decide (Some response_text) user_id session_id w
    = (Decision "anloop_sequence" (Some text) false,
       (execute ("<Loops>" ++ g1 ++ "</Loops>") user_id (Some session_id) w).2)
    /\ handle_message (decide (Some response_text) user_id session_id w).1 = None.
Proof.
  intros Hs Hmark.
  destruct (execute_block response_text g1 user_id (Some session_id) w Hs)
    as (results & Hexec).
  rewrite Hmark in Hexec.
  unfold make_decision_pro. rewrite Hs. cbv zeta. rewrite Hexec. cbn [negb snd].
  eexists. split; reflexivity.
Qed.

(** When the model wrote a text beside a block that is not a background
    one, the text is the reply: the block is executed, but what its tools
    return has no part in the reply. *)
Theorem direct_text_wins (response_text g1 user_id session_id : string) (w : W) :
  search_loops response_text = Some g1 ->
  startswith "#NotResp" (strip g1) = false ->
  let block := "<Loops>" ++ g1 ++ "</Loops>" in
  let direct := strip (replace block "" response_text) in
  truthy direct = true ->
  decide (Some response_text) user_id session_id w
  = (Decision "direct_reply" (Some direct) true,
     (execute block user_id (Some session_id) w).2)
  /\ handle_message (decide (Some response_text) user_id session_id w).1 = Some direct.
Proof.
  intros Hs Hmark block direct Hdirect.
  destruct (execute_block response_text g1 user_id (Some session_id) w Hs)
    as (results & Hexec).
  rewrite Hmark in Hexec. fold block in Hexec.
  unfold make_decision_pro. rewrite Hs. cbv zeta. fold block. rewrite Hexec.
  cbn [negb snd]. fold direct. rewrite Hdirect. done.
Qed.

Lemma errorlib_reply_found reason user_id (w : W) :
  methods "_execute_errorlib" = Some execute_errorlib ->
  truthy user_id = true ->
  errorlib_reply methods execute_unknown reason user_id w
  = (Some (default general_error (error_messages !! reason)), w).
Proof.
  intros Hm Hu. unfold errorlib_reply, dispatch_tool.
  rewrite lookup_insert_ne by done. rewrite lookup_singleton_eq, Hu. cbv zeta.
  replace (methods ("_execute_" ++ replace_char "-" "_" (lower "errorlib")))
    with (Some (@execute_errorlib W)) by (symmetry; exact Hm).
  change (default execute_unknown (Some execute_errorlib)) with (@execute_errorlib W).
  unfold execute_errorlib. by rewrite lookup_insert_eq.
Qed.

(** With no text beside the block and no tool that returned something, the
    reply is the fixed text for a failed tool, whatever the tools' errors
    were; and when the model call itself raised, no tool runs and the reply
    is the general error text. *)
Theorem failed_tools_fixed_reply (response_text g1 user_id session_id : string)
    (results : list ToolExecutionResult) (w w' : W) :
  methods "_execute_errorlib" = Some execute_errorlib ->
  truthy user_id = true ->
  search_loops response_text = Some g1 ->
  let block := "<Loops>" ++ g1 ++ "</Loops>" in
  truthy (strip (replace block "" response_text)) = false ->
  execute block user_id (Some session_id) w = (Ok (results, false), w') ->
  successful_results results = [] ->
  decide (Some response_text) user_id session_id w
  = (Decision "direct_reply" (Some "工具执行失败，请稍后再试或联系管理员。") true, w')
  /\ decide None user_id session_id w
     = (Decision "direct_reply" (Some general_error) true, w).
Proof.
  intros Hm Hu Hs block Hdirect Hexec Hnone. split.
  - unfold make_decision_pro. rewrite Hs. cbv zeta. fold block. rewrite Hexec.
    cbn [negb]. rewrite Hdirect, Hnone.
    by rewrite (errorlib_reply_found "tool_execution_failed" user_id w' Hm Hu).
  - unfold make_decision_pro.
    by rewrite (errorlib_reply_found "general_error" user_id w Hm Hu).
Qed.

End Decide.

(** A table with [_execute_errorlib], a tool that logs and one that
    raises. *)
Definition table (name : string) : option (@tool_method (list string)) :=
  if String.eqb name "_execute_errorlib" then Some execute_errorlib
  else InterpreterFacts.demo_methods name.

Lemma background_sequence_is_silent_witness :
  handle_message
    (make_decision_pro table InterpreterFacts.demo_unknown
       (Some "On it! <Loops>#NotResp;#Log=a</Loops>") "42" "42" []).1 = None.
Proof.
  destruct (background_sequence_is_silent table InterpreterFacts.demo_unknown
              "On it! <Loops>#NotResp;#Log=a</Loops>" "#NotResp;#Log=a" "42" "42" []
              eq_refl eq_refl) as (text & _ & Hnone).
  exact Hnone.
Defined.

Lemma direct_text_wins_witness :
  make_decision_pro table InterpreterFacts.demo_unknown
    (Some "Noted. <Loops>#Log=a</Loops>") "42" "42" []
  = (Decision "direct_reply" (Some "Noted.") true, ["a"]).
Proof.
  apply (direct_text_wins table InterpreterFacts.demo_unknown
           "Noted. <Loops>#Log=a</Loops>" "#Log=a" "42" "42" []); reflexivity.
Defined.

Lemma failed_tools_fixed_reply_witness :
  make_decision_pro table InterpreterFacts.demo_unknown
    (Some "<Loops>#Fail=x</Loops>") "42" "42" []
  = (Decision "direct_reply" (Some "工具执行失败，请稍后再试或联系管理员。") true, []).
Proof.
  apply (failed_tools_fixed_reply table InterpreterFacts.demo_unknown
           "<Loops>#Fail=x</Loops>" "#Fail=x" "42" "42"
           [ToolResult false None (Some ("执行工具'Fail'时内部错误: " ++ "boom"))] [] []);
    reflexivity.
Defined.

End DecisionFacts.
